(** * ingest_and_process_ezproxy.py: a shallow embedding and its properties

    The script has five parts, each modelled below: the synchronizer
    [ingest_ezproxy], the directory walk [list_files], the parser
    [format_ezproxy], the ingestion engine [process_log] with the two ledger
    queries, and the module-level run driver.

    Conventions of the embedding.
    - Text is [string]; a log line is a sequence of ASCII characters.  The
      character classes of Python's [re] are given on the ASCII range; a
      byte above 127 counts as a non-space, non-digit, non-word character.
    - A cell of a data frame or of a SQL row is a [cell]: text, a
      timestamp, an integer, a boolean, or [NaN], which also stands for NaT
      and for NULL.
    - A naive [datetime] is the number of seconds since 1970-01-01 00:00:00
      on the proleptic Gregorian calendar, as an integer [Z].
    - Code that can raise returns a [result]; code with effects on the SQL
      sink or on standard output passes a [world] along.
    - The SQL sink is a total function from table names to row lists, and
      [to_sql(..., if_exists="append")] appends rows.  A Delete statement
      is the text that the f-string builds: the table name and the path go
      into it as they are.  When the name is a regular identifier and the
      path has no single quote, the text is the statement
      [Delete from T where file_path = 'p'], which removes the rows of [T]
      whose [file_path] column is [p]; any other text is a syntax error for
      the server.  The surroundings may decide otherwise for a statement
      (the table does not exist, the connection is lost, the spliced text
      happens to be another statement): then [conn.execute] raises or
      leaves other tables, as the surroundings say.
    - Exceptions that come from outside the script (an interrupt of the
      operator, an error of the reader or of the sink during an insert) are
      placed in the loop over the chunks of a file, where the script
      expects them. *)

From Stdlib Require Import ZArith Lia Ascii String.
From stdpp Require Import gmap strings list.

Set Warnings "-register-all".

Open Scope string_scope.
Open Scope Z_scope.

(** ** Python values, exceptions and calls *)

Module Py.

(** The exceptions the script can meet.  [KeyboardInterrupt] derives from
    [BaseException] only; everything built with [Exc] is a subclass of
    [Exception], with its class name and the text [str(e)]. *)
Inductive exn : Type :=
| KeyboardInterrupt
| Exc (cls : string) (msg : string).

(** [str(e)] *)
Definition str_of (e : exn) : string :=
  match e with
  | KeyboardInterrupt => EmptyString
  | Exc _ msg => msg
  end.

Inductive result (A : Type) : Type :=
| Ok (a : A)
| Raise (e : exn).
Arguments Ok {A} a.
Arguments Raise {A} e.

Definition bind {A B : Type} (m : result A) (f : A -> result B) : result B :=
  match m with
  | Ok a => f a
  | Raise e => Raise e
  end.

Definition TypeError (msg : string) : exn := Exc "TypeError" msg.
Definition AttributeError (msg : string) : exn := Exc "AttributeError" msg.
Definition ValueError (msg : string) : exn := Exc "ValueError" msg.

(** *** Binding the arguments of a call

    Every function of the script declares plain parameters without
    defaults, so a call succeeds exactly when each parameter receives one
    value.  [bind_arguments] follows CPython's order of complaints: too
    many positional arguments, a keyword that names no parameter, a
    parameter given twice, a parameter left without a value. *)
Section Calls.
Context {V : Type}.

Fixpoint assoc (k : string) (l : list (string * V)) : option V :=
  match l with
  | [] => None
  | (k', v) :: l' => if String.eqb k k' then Some v else assoc k l'
  end.

Definition has_name (k : string) (names : list string) : bool :=
  existsb (String.eqb k) names.

Fixpoint bind_keywords (f : string) (params : list string) (bound : list (string * V))
         (kwargs : list (string * V)) : result (list (string * V)) :=
  match kwargs with
  | [] => Ok bound
  | (k, v) :: rest =>
      if negb (has_name k params)
      then Raise (TypeError (f ++ "() got an unexpected keyword argument '" ++ k ++ "'"))
      else match assoc k bound with
           | Some _ => Raise (TypeError (f ++ "() got multiple values for argument '" ++ k ++ "'"))
           | None => bind_keywords f params (bound ++ [(k, v)]) rest
           end
  end.

Definition missing (params : list string) (bound : list (string * V)) : list string :=
  List.filter (fun p => match assoc p bound with Some _ => false | None => true end) params.

(** A call of the function [f], whose parameters are [params], with
    positional and keyword arguments; the message for missing arguments
    names the first of them. *)
Definition bind_arguments (f : string) (params : list string) (args : list V)
           (kwargs : list (string * V)) : result (list (string * V)) :=
  if (length params <? length args)%nat
  then Raise (TypeError (f ++ "() takes fewer positional arguments than were given"))
  else
    bind (bind_keywords f params (combine params args) kwargs) (fun bound =>
    match missing params bound with
    | [] => Ok bound
    | [p] =>
        Raise (TypeError (f ++ "() missing 1 required positional argument: '" ++ p ++ "'"))
    | p :: _ =>
        Raise (TypeError (f ++ "() missing required positional arguments: '" ++ p
                            ++ "' and more"))
    end).
End Calls.

End Py.
Export Py.

(** ** A backtracking matcher for the regular expressions of the script *)

Module Regex.

Definition code (a : ascii) : N := N_of_ascii a.

Definition dquote : ascii := "034"%char.
Definition newline : ascii := "010"%char.
Definition backslash : ascii := "092"%char.

(** [\s] on ASCII: tab, line feed, vertical tab, form feed, carriage
    return, the four separators 28 to 31 and the space. *)
Definition is_space (a : ascii) : bool :=
  let n := code a in
  ((9 <=? n) && (n <=? 13) || (28 <=? n) && (n <=? 32))%N.
Definition is_nonspace (a : ascii) : bool := negb (is_space a).
Definition is_digit (a : ascii) : bool :=
  let n := code a in ((48 <=? n) && (n <=? 57))%N.
Definition is_alpha (a : ascii) : bool :=
  let n := code a in
  ((65 <=? n) && (n <=? 90) || (97 <=? n) && (n <=? 122))%N.
(** [\w] *)
Definition is_word (a : ascii) : bool :=
  is_alpha a || is_digit a || Ascii.eqb a "_".
(** [.] (no DOTALL flag) *)
Definition is_dot (a : ascii) : bool := negb (Ascii.eqb a newline).
Definition is_char (c : ascii) (a : ascii) : bool := Ascii.eqb a c.

(** The syntax that the two patterns of the script need.  A repetition
    [Rep] is over a single-character class, greedy ([x*]) or lazy ([x*?]). *)
Inductive re : Type :=
| Eps
| Bol                                 (* ^ *)
| Eol                                 (* $ *)
| Chr (p : ascii -> bool)
| Cat (a b : re)
| Alt (a b : re)                      (* a|b, a tried first *)
| Rep (greedy : bool) (p : ascii -> bool)
| Grp (name : string) (a : re).       (* (?P<name>a) *)

Definition Plus (p : ascii -> bool) : re := Cat (Chr p) (Rep true p).   (* x+ *)
Definition Opt (a : re) : re := Alt a Eps.                               (* a? *)
Fixpoint Times (n : nat) (p : ascii -> bool) : re :=                     (* x{n} *)
  match n with
  | O => Eps
  | S n' => Cat (Chr p) (Times n' p)
  end.
Fixpoint Lit (s : string) : re :=
  match s with
  | EmptyString => Eps
  | String c s' => Cat (Chr (is_char c)) (Lit s')
  end.
Fixpoint Seq (l : list re) : re :=
  match l with
  | [] => Eps
  | r :: l' => Cat r (Seq l')
  end.

(** Captured groups, the most recent binding first. *)
Definition caps : Type := list (string * string).

Fixpoint prefix (n : nat) (s : string) : string :=
  match n, s with
  | S n', String c s' => String c (prefix n' s')
  | _, _ => EmptyString
  end.

(** [run r i s c k]: match [r] at offset [i], where [s] is the text from
    [i] on, then hand the rest to the continuation [k].  [None] means that
    every alternative failed, so the caller backtracks. *)
Fixpoint run (r : re) (i : nat) (s : string) (c : caps)
         (k : nat -> string -> caps -> option caps) {struct r} : option caps :=
  match r with
  | Eps => k i s c
  | Bol => if (i =? 0)%nat then k i s c else None
  | Eol =>
      match s with
      | EmptyString => k i s c
      | String a EmptyString => if Ascii.eqb a newline then k i s c else None
      | _ => None
      end
  | Chr p =>
      match s with
      | String a s' => if p a then k (S i) s' c else None
      | EmptyString => None
      end
  | Cat a b => run a i s c (fun i' s' c' => run b i' s' c' k)
  | Alt a b =>
      match run a i s c k with
      | Some res => Some res
      | None => run b i s c k
      end
  | Rep true p =>
      (fix more (i : nat) (s : string) {struct s} : option caps :=
         match s with
         | String a s' =>
             if p a
             then match more (S i) s' with
                  | Some res => Some res
                  | None => k i s c
                  end
             else k i s c
         | EmptyString => k i s c
         end) i s
  | Rep false p =>
      (fix more (i : nat) (s : string) {struct s} : option caps :=
         match k i s c with
         | Some res => Some res
         | None =>
             match s with
             | String a s' => if p a then more (S i) s' else None
             | EmptyString => None
             end
         end) i s
  | Grp name a =>
      run a i s c (fun i' s' c' => k i' s' ((name, prefix (i' - i) s) :: c'))
  end.

Definition accept : nat -> string -> caps -> option caps :=
  fun _ _ c => Some c.

(** [re.search]: the leftmost offset at which the pattern matches. *)
Fixpoint search_from (r : re) (i : nat) (s : string) : option caps :=
  match run r i s [] accept with
  | Some c => Some c
  | None =>
      match s with
      | String _ s' => search_from r (S i) s'
      | EmptyString => None
      end
  end.

Definition search (r : re) (s : string) : option caps := search_from r 0 s.

(** [m.group(name)]: [None] when the group took no part in the match. *)
Definition group (name : string) (c : caps) : option string := assoc name c.

(** *** What the statements about the matcher speak of *)

(** Whether a continuation succeeds does not depend on the groups captured
    so far. *)
Definition oblivious (k : nat -> string -> caps -> option caps) : Prop :=
  forall i s c c', k i s c = None <-> k i s c' = None.

(** Every group bound in [c] is bound in [c']. *)
Definition keeps (c c' : caps) : Prop :=
  forall g, group g c <> None -> group g c' <> None.

End Regex.

(** ** Naive datetimes and [pd.to_datetime] with the fixed layout *)

Module Datetime.

Definition is_leap (y : Z) : bool :=
  ((y mod 4 =? 0) && negb (y mod 100 =? 0)) || (y mod 400 =? 0).

Definition days_in_month (y m : Z) : Z :=
  if m =? 2 then (if is_leap y then 29 else 28)
  else if (m =? 4) || (m =? 6) || (m =? 9) || (m =? 11) then 30
  else 31.

(** Days from 1970-01-01 to the civil date [y]-[m]-[d]. *)
Definition days_from_civil (y m d : Z) : Z :=
  let y' := if m <=? 2 then y - 1 else y in
  let era := y' / 400 in
  let yoe := y' - era * 400 in
  let doy := (153 * (if 2 <? m then m - 3 else m + 9) + 2) / 5 + d - 1 in
  let doe := yoe * 365 + yoe / 4 - yoe / 100 + doy in
  era * 146097 + doe - 719468.

Definition seconds_of (y m d hh mm ss : Z) : Z :=
  days_from_civil y m d * 86400 + hh * 3600 + mm * 60 + ss.

(** [datetime.timedelta(days=1)] *)
Definition one_day : Z := 86400.

(** [datetime.strptime("2000-01-01 00:00:00", "%Y-%m-%d %H:%M:%S")] *)
Definition year_2000 : Z := seconds_of 2000 1 1 0 0 0.

Definition digit (a : ascii) : option Z :=
  if Regex.is_digit a then Some (Z.of_N (Regex.code a) - 48) else None.

Definition lower (a : ascii) : ascii :=
  let n := Regex.code a in
  if ((65 <=? n) && (n <=? 90))%N then ascii_of_N (n + 32) else a.

(** [%b]: the abbreviated month names, matched without regard to case. *)
Definition month_of (a b c : ascii) : option Z :=
  let name := String (lower a) (String (lower b) (String (lower c) EmptyString)) in
  if String.eqb name "jan" then Some 1 else
  if String.eqb name "feb" then Some 2 else
  if String.eqb name "mar" then Some 3 else
  if String.eqb name "apr" then Some 4 else
  if String.eqb name "may" then Some 5 else
  if String.eqb name "jun" then Some 6 else
  if String.eqb name "jul" then Some 7 else
  if String.eqb name "aug" then Some 8 else
  if String.eqb name "sep" then Some 9 else
  if String.eqb name "oct" then Some 10 else
  if String.eqb name "nov" then Some 11 else
  if String.eqb name "dec" then Some 12 else None.

Definition two (a b : ascii) : option Z :=
  x ← digit a; y ← digit b; Some (10 * x + y).

(** The range of [datetime64[ns]], in whole seconds. *)
Definition in_bounds (t : Z) : bool :=
  (-9223372036 <=? t) && (t <=? 9223372036).

(** [pd.to_datetime(s, format="%d/%b/%Y:%H:%M:%S")] on one string of the
    shape that the extraction pattern of [format_ezproxy] delivers: two
    digits, three letters, four digits and three pairs of digits.  [None]
    stands for the [ValueError] that pandas raises: a day outside 01..31 or
    outside the month, an unknown month name, year 0000, an hour above 23,
    a minute above 59, a second above 61, or a date outside the range of
    nanosecond timestamps.  The layout admits the seconds 60 and 61; they
    are taken to carry into the next minute. *)
Definition strptime (s : string) : option Z :=
  match list_ascii_of_string s with
  | [d1; d2; s1; b1; b2; b3; s2; y1; y2; y3; y4; c1; h1; h2; c2; m1; m2; c3; x1; x2] =>
      if Ascii.eqb s1 "/" && Ascii.eqb s2 "/" && Ascii.eqb c1 ":"
         && Ascii.eqb c2 ":" && Ascii.eqb c3 ":"
      then
        d ← two d1 d2;
        mo ← month_of b1 b2 b3;
        yh ← two y1 y2;
        yl ← two y3 y4;
        hh ← two h1 h2;
        mm ← two m1 m2;
        ss ← two x1 x2;
        let y := 100 * yh + yl in
        if (1 <=? y) && (1 <=? d) && (d <=? days_in_month y mo)
           && (hh <=? 23) && (mm <=? 59) && (ss <=? 61)
           && in_bounds (seconds_of y mo d hh mm ss)
        then Some (seconds_of y mo d hh mm ss)
        else None
      else None
  | _ => None
  end.

End Datetime.

(** ** Data frames *)

Module Frame.

(** One cell of a data frame or of a SQL row. *)
Inductive cell : Type :=
| NaN                       (* also NaT and SQL NULL *)
| Str (s : string)
| Stamp (t : Z)
| Int (n : Z)
| Bool (b : bool).

#[export] Instance cell_eq_dec : EqDecision cell.
Proof. solve_decision. Defined.

(** A row: its columns in order, each with its cell. *)
Definition row : Type := list (string * cell).
Definition frame : Type := list row.

(** [r[col]]; a column that the row lacks reads as NaN. *)
Definition get (col : string) (r : row) : cell :=
  match assoc col r with
  | Some c => c
  | None => NaN
  end.

Definition notnull (c : cell) : bool :=
  match c with
  | NaN => false
  | _ => true
  end.

(** [df[col] = v]: overwrite the column where it exists, else add it as
    the last one. *)
Fixpoint set_col (col : string) (v : cell) (r : row) : row :=
  match r with
  | [] => [(col, v)]
  | (k, c) :: r' => if String.eqb col k then (k, v) :: r' else (k, c) :: set_col col v r'
  end.

Definition assign (col : string) (v : cell) (df : frame) : frame :=
  map (set_col col v) df.

(** [df[mask]] with a boolean mask on the same index. *)
Fixpoint select {A : Type} (mask : list bool) (l : list A) : list A :=
  match mask, l with
  | b :: mask', x :: l' => if b then x :: select mask' l' else select mask' l'
  | _, _ => []
  end.

(** [df.replace({old: NaN})]: every cell equal to the string [old]. *)
Definition replace_cell (old : string) (c : cell) : cell :=
  match c with
  | Str s => if String.eqb s old then NaN else c
  | _ => c
  end.

Definition replace (old : string) (df : frame) : frame :=
  map (map (fun kc : string * cell => (kc.1, replace_cell old kc.2))) df.

(** [Series.str.extract(pattern)]: one column per group; a string that the
    pattern does not match, and a cell that is no string, give NaN in all
    of them, and so does a group that took no part in the match. *)
Definition str_extract (pattern : Regex.re) (groups : list string) (c : cell) : row :=
  match c with
  | Str s =>
      match Regex.search pattern s with
      | Some m =>
          map (fun g => (g, match Regex.group g m with
                            | Some t => Str t
                            | None => NaN
                            end)) groups
      | None => map (fun g => (g, NaN)) groups
      end
  | _ => map (fun g => (g, NaN)) groups
  end.

End Frame.
Export Frame.

(** ** The parser: [format_ezproxy] *)

Module Parser.
Import Regex.

Definition quote : re := Chr (is_char dquote).
Definition not_quote (a : ascii) : bool := negb (Ascii.eqb a dquote).
Definition word_colon_slash (a : ascii) : bool :=
  is_word a || Ascii.eqb a ":" || Ascii.eqb a "/".
Definition sign (a : ascii) : bool := Ascii.eqb a "+" || Ascii.eqb a "-".
(** [.*?|\s] *)
Definition geo : re := Alt (Rep false is_dot) (Chr is_space).

(** [regex_log], piece by piece in the order of the pattern text: what
    stands before the request, the request, and what stands after it. *)
Definition before_request : list re :=
  [ Bol;
    Grp "ip_address" (Plus is_nonspace);
    Lit " "; Plus is_nonspace; Lit " ";
    Grp "username" (Plus is_nonspace);
    Lit " [";
    Grp "click_time"
      (Seq [Plus word_colon_slash; Chr is_space; Chr sign; Times 4 is_digit]);
    Lit "] "; quote ].

Definition request_part : re := Opt (Grp "request" (Rep true is_dot)).

Definition after_request : list re :=
  [ Opt (Chr is_space);
    quote; Lit " ";
    Grp "http_code" (Alt (Times 3 is_digit) (Lit "-"));
    Lit " ";
    Alt (Plus is_digit) (Cat (Lit "-") (Opt (Chr is_space)));
    Lit " ";
    Grp "library_session" (Plus is_nonspace);
    Lit " ";
    Grp "referrer" (Plus is_dot);
    Lit " ";
    Opt quote; Opt (Chr (is_char backslash)); quote;
    Rep false not_quote;
    quote; Opt (Chr (is_char backslash)); Opt quote;
    Lit " ";
    Grp "county" geo; Lit " ";
    Grp "state" geo; Lit " ";
    Grp "city" geo;
    Opt (Cat (Chr is_space)
             (Grp "ezproxy_session" (Alt (Times 22 is_nonspace) (Lit "-"))));
    Eol ].

Definition regex_log : re :=
  Seq (before_request ++ request_part :: after_request).

Definition log_columns : list string :=
  [ "ip_address"; "username"; "click_time"; "request"; "http_code";
    "library_session"; "referrer"; "county"; "state"; "city";
    "ezproxy_session" ].

(** The pattern of the second extraction, with its one group. *)
Definition regex_click_time : re :=
  Seq [ Grp "0" (Seq [ Times 2 is_digit; Lit "/"; Times 3 is_alpha; Lit "/";
                       Times 4 is_digit; Lit ":"; Times 2 is_digit; Lit ":";
                       Times 2 is_digit; Lit ":"; Times 2 is_digit ]);
        Rep true is_dot ].

(** [pd.to_datetime(column, format=...)]: NaN becomes NaT, a string is
    parsed, and the first string that does not parse raises; the message is
    the one of a text that does not match the layout. *)
Fixpoint to_datetime (column : list cell) : result (list cell) :=
  match column with
  | [] => Ok []
  | c :: rest =>
      match c with
      | Str s =>
          match Datetime.strptime s with
          | Some t => bind (to_datetime rest) (fun ts => Ok (Stamp t :: ts))
          | None => Raise (ValueError ("time data '" ++ s ++ "' does not match format "
                                       ++ "'%d/%b/%Y:%H:%M:%S' (match)"))
          end
      | _ => bind (to_datetime rest) (fun ts => Ok (NaN :: ts))
      end
  end.

(** [df.click_time = values], row by row. *)
Fixpoint set_column (col : string) (values : list cell) (df : frame) : frame :=
  match values, df with
  | v :: values', r :: df' => set_col col v r :: set_column col values' df'
  | _, _ => []
  end.

(** Line 166 on one line: the eleven groups of [regex_log]. *)
Definition extract_log (line : string) : row :=
  str_extract regex_log log_columns (Str line).

(** Line 171 on one row. *)
Definition valid_row (r : row) : bool := notnull (get "request" r).

(** Line 178 on one row: the canonical date-time text, or NaN. *)
Definition canonical_click_time (r : row) : cell :=
  get "0" (str_extract regex_click_time ["0"] (get "click_time" r)).

(** A row of [chunk] itself: the column [log]. *)
Definition raw (line : string) : row := [("log", Str line)].

(** [format_ezproxy(chunk)], where [chunk] is the column [log]. *)
Definition format_ezproxy (chunk : list string) : result (frame * frame) :=
  let df_logs := map extract_log chunk in
  let valid := map valid_row df_logs in
  let df_logs := select valid df_logs in
  let df_invalid := select (map negb valid) (map raw chunk) in
  let click_time := map canonical_click_time df_logs in
  bind (to_datetime click_time) (fun click_time =>
  let df_logs := set_column "click_time" click_time df_logs in
  let df_logs := replace "-" df_logs in
  let df_logs := replace " " df_logs in
  Ok (df_logs, df_invalid)).

(** *** What the statements about the parser speak of *)

(** The rows that line 174 keeps. *)
Definition kept (chunk : list string) : frame :=
  select (map valid_row (map extract_log chunk)) (map extract_log chunk).

(** The line matches [regex_log], so that its request is not null. *)
Definition matches (line : string) : bool := valid_row (extract_log line).

(** [pd.to_datetime] accepts the cell. *)
Definition parses (c : cell) : bool :=
  match c with
  | Str s => match Datetime.strptime s with Some _ => true | None => false end
  | _ => true
  end.

(** Timestamp normalization does not raise on the line. *)
Definition click_time_parses (line : string) : bool :=
  negb (matches line) || parses (canonical_click_time (extract_log line)).

(** What line 179 makes of one cell when it does not raise. *)
Definition stamp (c : cell) : cell :=
  match c with
  | Str s => match Datetime.strptime s with Some t => Stamp t | None => NaN end
  | _ => NaN
  end.

(** What lines 178 to 183 make of one kept row when line 179 does not
    raise. *)
Definition finish (r : row) : row :=
  map (fun kc : string * cell => (kc.1, replace_cell " " kc.2))
    (map (fun kc : string * cell => (kc.1, replace_cell "-" kc.2))
       (set_col "click_time" (stamp (canonical_click_time r)) r)).

(** What [format_ezproxy] returns on one chunk and then on the next, put
    together. *)
Definition one_after_the_other (first second : result (frame * frame))
  : result (frame * frame) :=
  bind first (fun a => bind second (fun b => Ok ((a.1 ++ b.1)%list, (a.2 ++ b.2)%list))).

End Parser.

(** ** Files and directories *)

Module Fs.

(** An entry of a directory, with its modification time as the naive
    local datetime that [datetime.fromtimestamp(os.path.getmtime(p))]
    gives. *)
Inductive node : Type :=
| File (name : string) (mtime : Z)
| Dir (name : string) (mtime : Z) (entries : list node).

Definition name_of (n : node) : string :=
  match n with
  | File name _ => name
  | Dir name _ _ => name
  end.

Definition mtime_of (n : node) : Z :=
  match n with
  | File _ mtime => mtime
  | Dir _ mtime _ => mtime
  end.

Definition sep : string := String Regex.backslash EmptyString.

Fixpoint last_char (s : string) : option ascii :=
  match s with
  | EmptyString => None
  | String c EmptyString => Some c
  | String _ s' => last_char s'
  end.

(** [a] is a drive letter with its colon and nothing more. *)
Definition drive_only (a : string) : bool :=
  match a with
  | String _ (String c EmptyString) => Ascii.eqb c ":"
  | _ => false
  end.

(** [os.path.join(a, b)] of [ntpath] for a relative [b] without a drive:
    a separator goes between the two unless [a] is empty, is a bare drive,
    or ends with a separator. *)
Definition join (a b : string) : string :=
  match last_char a with
  | None => b
  | Some c =>
      if Ascii.eqb c Regex.backslash || Ascii.eqb c "/" || drive_only a
      then a ++ b
      else a ++ sep ++ b
  end.

Definition join_all (parts : list string) : string :=
  match parts with
  | [] => EmptyString
  | a :: rest => fold_left join rest a
  end.

(** The files that sit in a directory itself. *)
Definition files_in (root : string) (entries : list node) : list (string * Z) :=
  flat_map (fun n => match n with
                     | File name mtime => [(join root name, mtime)]
                     | Dir _ _ _ => []
                     end) entries.

(** The files below one entry of [root], in the order of [os.walk]: a
    directory lists its own files, then those of each sub-directory. *)
Fixpoint walk_node (root : string) (n : node) : list (string * Z) :=
  match n with
  | File _ _ => []
  | Dir name _ entries =>
      (files_in (join root name) entries
         ++ concat (map (walk_node (join root name)) entries))%list
  end.

(** Every file under [root] with its modification time, as the double
    loop over [os.walk(root)] meets them. *)
Definition walk (root : string) (entries : list node) : list (string * Z) :=
  (files_in root entries ++ concat (map (walk_node root) entries))%list.

(** [s in t] on strings. *)
Fixpoint starts_with (s t : string) : bool :=
  match s, t with
  | EmptyString, _ => true
  | String a s', String b t' => Ascii.eqb a b && starts_with s' t'
  | String _ _, EmptyString => false
  end.

Fixpoint contains (s t : string) : bool :=
  starts_with s t ||
  match t with
  | EmptyString => false
  | String _ t' => contains s t'
  end.

(** *** What the statements about the walk speak of *)

(** The number of files in a directory tree, at any depth. *)
Fixpoint count_node (n : node) : nat :=
  match n with
  | File _ _ => 1
  | Dir _ _ entries => list_sum (map count_node entries)
  end.

Definition count_files (entries : list node) : nat := list_sum (map count_node entries).

(** The files below the sub-directories of an entry. *)
Definition below (n : node) : nat :=
  match n with
  | File _ _ => 0%nat
  | Dir _ _ entries => count_files entries
  end.

End Fs.
Export Fs.

(** ** The SQL sink and standard output *)

Module Sink.

(** The tables of the sink by name: one per log type, [invalid_logs] and
    [processing_time]. *)
Definition db : Type := string -> list row.

Definition invalid_logs : string := "invalid_logs".
Definition processing_time : string := "processing_time".

(** [df.to_sql(table, engine, if_exists="append", index=False)] *)
Definition to_sql (table : string) (df : frame) (d : db) : db :=
  fun t => if String.eqb t table then (d t ++ df)%list else d t.

(** What [Delete from table where cond] leaves, when the server carries
    the statement out. *)
Definition delete_where (table : string) (cond : row -> bool) (d : db) : db :=
  fun t => if String.eqb t table then List.filter (fun r => negb (cond r)) (d t) else d t.

(** [file_path = 'p'] *)
Definition file_path_is (p : string) (r : row) : bool :=
  bool_decide (get "file_path" r = Str p).

(** [valid = 0] and [valid = 1] on a bit column *)
Definition valid_is (b : bool) (r : row) : bool :=
  bool_decide (get "valid" r = Bool b).

(** The text that [conn.execute] receives for the Delete statements of
    lines 246 to 247, 251 to 254 and 268 to 271, with the white space
    between its words reduced to one space: the f-string puts the table
    name and the path into the text as they are. *)
Definition delete_text (table file_path : string) (failed_only : bool) : string :=
  "Delete from " ++ table ++ " where file_path = '" ++ file_path ++ "'"
  ++ (if failed_only then " and valid = 0" else "").

Fixpoint all_chars (p : ascii -> bool) (s : string) : bool :=
  match s with
  | EmptyString => true
  | String c s' => p c && all_chars p s'
  end.

(** A regular identifier: it names a table without brackets around it. *)
Definition is_identifier (s : string) : bool :=
  match s with
  | EmptyString => false
  | String c _ => negb (Regex.is_digit c) && all_chars Regex.is_word s
  end.

(** No single quote: the text can stand between the quotes of a literal
    as it is. *)
Definition quote_free (s : string) : bool :=
  all_chars (fun c => negb (Ascii.eqb c "'")) s.

(** The text of [delete_text] is the statement that the script means. *)
Definition spliced (table file_path : string) : bool :=
  is_identifier table && quote_free file_path.

(** [sqlalchemy.exc.ProgrammingError], with the statement for its text. *)
Definition ProgrammingError (statement : string) : exn := Exc "ProgrammingError" statement.

(** What the script prints. *)
Inductive printed : Type :=
| Text (s : string)
| Started (file_path : string) (processing_start_time : Z)
| CopyNote (fileTimestamp : Z) (wholePath : string)
| Shown (df : frame).

(** Everything outside the script: the sink, standard output, the number
    of clock readings so far, the directories on disk by path (their
    entries, when the path exists) and the shell commands started. *)
Record world : Type := World {
  sink : db;
  stdout : list printed;
  ticks : nat;
  disk : string -> option (list node);
  spawned : list string
}.

Definition on_sink (f : db -> db) (w : world) : world :=
  World (f (sink w)) (stdout w) (ticks w) (disk w) (spawned w).

Definition print (p : printed) (w : world) : world :=
  World (sink w) (stdout w ++ [p])%list (ticks w) (disk w) (spawned w).

(** One more reading of the clock. *)
Definition tick (w : world) : world :=
  World (sink w) (stdout w) (S (ticks w)) (disk w) (spawned w).

(** The rows of a table that belong to a file. *)
Definition rows_of (p : string) (table : list row) : list row :=
  List.filter (file_path_is p) table.

End Sink.
Export Sink.

(** ** The ingestion engine: [process_log] and the ledger queries *)

Module Engine.

(** A parser such as [format_ezproxy]. *)
Definition formatter : Type := list string -> result (frame * frame).

(** Where, while one chunk is handled, an exception may arrive from
    outside the script: an interrupt of the operator, or an error of the
    sink during an insert. *)
Inductive stage : Type :=
| AtFormat          (* inside format_log(chunk) *)
| AtLogs            (* inside df_logs.to_sql / print(df_logs) *)
| AtInvalid.        (* inside df_invalid.to_sql / print(df_invalid) *)

#[export] Instance stage_eq_dec : EqDecision stage.
Proof. solve_decision. Defined.

(** What the chunk reader of [pd.read_csv] does at each step of the loop:
    it yields the next chunk of lines, or raises.  A chunk may carry the
    exception that arrives while it is handled. *)
Inductive read_event : Type :=
| Chunk (lines : list string) (arrives : option (stage * exn))
| Broken (e : exn).

Definition arrives_at (s : stage) (a : option (stage * exn)) : option exn :=
  match a with
  | Some (s', e) => if bool_decide (s = s') then Some e else None
  | None => None
  end.

(** The globals and the surroundings that [process_log] reads.  [server]
    says what the server does with a Delete statement, on the tables it
    holds, when that is not the usual: an error (the table does not exist,
    the connection is lost, the operator interrupts) or other tables than
    the statement as meant would leave (the spliced text is another
    statement).  [None] is the usual: a statement spliced as meant is
    carried out, any other text is a syntax error. *)
Record env : Type := Env {
  invalid_files : gset string;       (* the global of line 353 *)
  now : nat -> Z;                    (* datetime.now().replace(microsecond=0), by reading *)
  server : string -> db -> option (result db)
}.

(** The local variables that survive the [try] block. *)
Record locals : Type := Locals {
  num_of_logs : Z;
  num_invalid : Z
}.

Definition len (df : frame) : Z := Z.of_nat (length df).

(** The body of [for chunk in chunker], lines 223 to 242.  The result is
    the exception that left the loop, if any, with the locals and the
    world at that moment. *)
Fixpoint chunks (file_path log_type : string) (is_production : bool)
         (format_log : formatter) (processing_start_time : Z)
         (chunker : list read_event) (l : locals) (w : world)
  : option exn * locals * world :=
  match chunker with
  | [] => (None, l, w)
  | Broken e :: _ => (Some e, l, w)
  | Chunk lines arrives :: rest =>
      match arrives_at AtFormat arrives with
      | Some e => (Some e, l, w)
      | None =>
      match format_log lines with
      | Raise e => (Some e, l, w)
      | Ok (df_logs, df_invalid) =>
          let df_logs := assign "file_path" (Str file_path) df_logs in
          let df_logs := assign "processing_start_time" (Stamp processing_start_time) df_logs in
          let l := Locals (num_of_logs l + len df_logs) (num_invalid l + len df_invalid) in
          let df_invalid := assign "processing_start_time" (Stamp processing_start_time) df_invalid in
          let df_invalid := assign "log_type" (Str log_type) df_invalid in
          let df_invalid := assign "file_path" (Str file_path) df_invalid in
          match arrives_at AtLogs arrives with
          | Some e => (Some e, l, w)
          | None =>
          let w := if is_production
                   then on_sink (to_sql log_type df_logs) w
                   else print (Shown df_logs) w in
          match arrives_at AtInvalid arrives with
          | Some e => (Some e, l, w)
          | None =>
          let w := if is_production
                   then on_sink (to_sql invalid_logs df_invalid) w
                   else print (Shown df_invalid) w in
          chunks file_path log_type is_production format_log processing_start_time rest l w
          end
          end
      end
      end
  end.

(** The rows that a Delete statement of the script is after: those of the
    file, or its failed runs only. *)
Definition aimed_at (file_path : string) (failed_only : bool) : row -> bool :=
  if failed_only
  then fun r => file_path_is file_path r && valid_is false r
  else file_path_is file_path.

(** [conn.execute] of a Delete statement.  The quote of a path such as
    [o'brien.log] ends the literal early, and the server answers the rest
    of the text with an error. *)
Definition execute_delete (E : env) (table file_path : string) (failed_only : bool)
           (w : world) : result unit * world :=
  let statement := delete_text table file_path failed_only in
  match server E statement (sink w) with
  | Some (Ok d) => (Ok tt, on_sink (fun _ => d) w)
  | Some (Raise e) => (Raise e, w)
  | None =>
      if spliced table file_path
      then (Ok tt, on_sink (delete_where table (aimed_at file_path failed_only)) w)
      else (Raise (ProgrammingError statement), w)
  end.

(** The two statements of both [except] blocks: when the first raises, the
    second is not sent. *)
Definition delete_logs_of (E : env) (file_path log_type : string) (w : world)
  : result unit * world :=
  match execute_delete E log_type file_path false w with
  | (Ok _, w) => execute_delete E invalid_logs file_path false w
  | (Raise e, w) => (Raise e, w)
  end.

(** Lines 245 to 247. *)
Definition cleanup_invalid (E : env) (file_path : string) (w : world)
  : result unit * world :=
  if bool_decide (file_path ∈ invalid_files E)
  then execute_delete E processing_time file_path true w
  else (Ok tt, w).

(** [df_processing_record], lines 277 to 285. *)
Definition processing_record (file_path log_type : string)
           (processing_start_time processing_end_time : Z) (valid : bool)
           (l : locals) (error : cell) : row :=
  [ ("file_path", Str file_path);
    ("log_type", Str log_type);
    ("processing_start_time", Stamp processing_start_time);
    ("processing_end_time", Stamp processing_end_time);
    ("valid", Bool valid);
    ("num_of_logs", Int (num_of_logs l));
    ("num_invalid", Int (num_invalid l));
    ("error", error) ].

(** Lines 273 to 295: the end time, the record, and where it goes. *)
Definition record_run (E : env) (file_path log_type : string) (is_production : bool)
           (processing_start_time : Z) (valid : bool) (l : locals) (error : cell)
           (w : world) : world :=
  let processing_end_time := now E (ticks w) in
  let w := tick w in
  let df_processing_record :=
    [processing_record file_path log_type processing_start_time processing_end_time
       valid l error] in
  if is_production
  then on_sink (to_sql processing_time df_processing_record) w
  else print (Shown df_processing_record) w.

(** The two [except] blocks, lines 250 to 271, for an exception raised
    inside the [try], and lines 273 to 295 after the second.  An exception
    that a Delete statement of a handler raises leaves [process_log]: the
    rest of the handler does not run, and no record is made. *)
Definition handle (E : env) (file_path log_type : string) (is_production : bool)
           (processing_start_time : Z) (e : exn) (l : locals) (w : world)
  : result unit * world :=
  match e with
  | KeyboardInterrupt =>
      match delete_logs_of E file_path log_type w with
      | (Ok _, w) => (Raise KeyboardInterrupt, w)
      | (Raise e', w) => (Raise e', w)
      end
  | Exc cls msg =>
      let w := print (Text (str_of e)) w in
      let error := Str (str_of e) in
      match delete_logs_of E file_path log_type w with
      | (Ok _, w) =>
          (Ok tt, record_run E file_path log_type is_production processing_start_time
                    false l error w)
      | (Raise e', w) => (Raise e', w)
      end
  end.

(** [process_log(file_path, log_type, is_production, format_log)], where
    [chunker] is what [pd.read_csv(file_path, ...)] will do.  The purge of
    lines 245 to 247 is inside the [try]: what it raises goes to the
    handlers. *)
Definition process_log (E : env) (chunker : list read_event)
           (file_path log_type : string) (is_production : bool)
           (format_log : formatter) (w : world) : result unit * world :=
  let processing_start_time := now E (ticks w) in
  let w := tick w in
  let w := print (Started file_path processing_start_time) w in
  match chunks file_path log_type is_production format_log processing_start_time
               chunker (Locals 0 0) w with
  | (None, l, w) =>
      match cleanup_invalid E file_path w with
      | (Ok _, w) =>
          (Ok tt, record_run E file_path log_type is_production processing_start_time
                    true l NaN w)
      | (Raise e, w) =>
          handle E file_path log_type is_production processing_start_time e l w
      end
  | (Some e, l, w) =>
      handle E file_path log_type is_production processing_start_time e l w
  end.

(** [Select distinct file_path from processing_time where valid = b] *)
Definition files_where_valid (b : bool) (d : db) : gset string :=
  list_to_set
    (omap (fun r => match get "file_path" r with Str p => Some p | _ => None end)
          (List.filter (valid_is b) (d processing_time))).

Definition get_processed_files (w : world) : gset string := files_where_valid true (sink w).
Definition get_invalid_files (w : world) : gset string := files_where_valid false (sink w).

(** *** What the statements about the engine speak of *)

(** The exception that ends the loop over the chunks, if one does: it
    depends on the reader, on the parser and on what arrives from outside,
    not on the sink. *)
Fixpoint first_exception (format_log : formatter) (chunker : list read_event) : option exn :=
  match chunker with
  | [] => None
  | Broken e :: _ => Some e
  | Chunk lines arrives :: rest =>
      match arrives_at AtFormat arrives with
      | Some e => Some e
      | None =>
      match format_log lines with
      | Raise e => Some e
      | Ok _ =>
      match arrives_at AtLogs arrives with
      | Some e => Some e
      | None =>
      match arrives_at AtInvalid arrives with
      | Some e => Some e
      | None => first_exception format_log rest
      end end end end
  end.

(** The server carries out a Delete statement of the script: the text is
    the statement that the script means, and the surroundings do not
    decide otherwise. *)
Definition carried_out (E : env) (table file_path : string) (failed_only : bool) : Prop :=
  spliced table file_path = true
  /\ forall d, server E (delete_text table file_path failed_only) d = None.

(** The server decides otherwise than the usual only by an error: it never
    leaves other tables than the statement as meant would. *)
Definition errs_only (E : env) : Prop :=
  forall statement d d', server E statement d <> Some (Ok d').

(** Both statements of a rollback are carried out. *)
Definition rolls_back (E : env) (file_path log_type : string) : Prop :=
  carried_out E log_type file_path false /\ carried_out E invalid_logs file_path false.

(** The purge of lines 245 to 247 is carried out, when it is due. *)
Definition purges (E : env) (file_path : string) : Prop :=
  file_path ∈ invalid_files E -> carried_out E processing_time file_path true.


(** The world that a rollback which is carried out leaves. *)
Definition without_logs_of (file_path log_type : string) (w : world) : world :=
  let w := on_sink (delete_where log_type (file_path_is file_path)) w in
  on_sink (delete_where invalid_logs (file_path_is file_path)) w.

(** The world that the purge of lines 245 to 247 leaves when it is carried
    out, or is not due. *)
Definition purged (E : env) (file_path : string) (w : world) : world :=
  if bool_decide (file_path ∈ invalid_files E)
  then on_sink (delete_where processing_time
                  (fun r => file_path_is file_path r && valid_is false r)) w
  else w.

(** The run rows of a file with a given outcome. *)
Definition runs_of (file_path : string) (valid : bool) (table : list row) : list row :=
  List.filter (fun r => file_path_is file_path r && valid_is valid r) table.

(** Lines 225 and 226 on a whole valid partition, and lines 229 to 231 on
    a whole invalid one. *)
Definition tag_logs (file_path : string) (processing_start_time : Z) (df : frame) : frame :=
  assign "processing_start_time" (Stamp processing_start_time)
    (assign "file_path" (Str file_path) df).

Definition tag_invalid (file_path log_type : string) (processing_start_time : Z)
           (df : frame) : frame :=
  assign "file_path" (Str file_path)
    (assign "log_type" (Str log_type)
       (assign "processing_start_time" (Stamp processing_start_time) df)).

(** The partitions of all the chunks of a file, end to end. *)
Fixpoint parsed (format_log : formatter) (chunker : list read_event) : frame * frame :=
  match chunker with
  | Chunk lines _ :: rest =>
      match format_log lines with
      | Ok (df_logs, df_invalid) =>
          let later := parsed format_log rest in
          ((df_logs ++ later.1)%list, (df_invalid ++ later.2)%list)
      | Raise _ => ([], [])
      end
  | _ => ([], [])
  end.

(** The number of lines in the chunks that the reader yields. *)
Fixpoint lines_read (chunker : list read_event) : Z :=
  match chunker with
  | Chunk lines _ :: rest => Z.of_nat (length lines) + lines_read rest
  | _ => 0
  end.

End Engine.
Export Engine.

(** ** Effects: a state and exception monad over the world *)

Module Effect.

Definition M (A : Type) : Type := world -> result A * world.

Definition ret {A : Type} (a : A) : M A := fun w => (Ok a, w).
Definition raise {A : Type} (e : exn) : M A := fun w => (Raise e, w).
Definition lift {A : Type} (r : result A) : M A := fun w => (r, w).
Definition modify (f : world -> world) : M unit := fun w => (Ok tt, f w).
Definition ask {A : Type} (f : world -> A) : M A := fun w => (Ok (f w), w).

Definition and_then {A B : Type} (m : M A) (k : A -> M B) : M B :=
  fun w =>
    match m w with
    | (Ok a, w') => k a w'
    | (Raise e, w') => (Raise e, w')
    end.

(** [for x in xs: body(x)]; an exception ends the loop. *)
Fixpoint for_each {A : Type} (xs : list A) (body : A -> M unit) : M unit :=
  match xs with
  | [] => ret tt
  | x :: rest => and_then (body x) (fun _ => for_each rest body)
  end.

End Effect.
Export Effect.

Notation "'let*' x := m 'in' k" := (and_then m (fun x => k))
  (at level 10, x name, m at level 100, k at level 200).
Notation "m ;;; k" := (and_then m (fun _ => k))
  (at level 100, k at level 200, right associativity).

(** ** Names of the [datetime] library *)

Module Names.

(** The objects that the name [datetime] and its attributes can denote. *)
Inductive pyobj : Type :=
| datetime_module                 (* import datetime *)
| datetime_class                  (* from datetime import datetime *)
| timedelta_class
| member (name : string).         (* a method or constant, not looked into further *)

Definition module_members : list string :=
  [ "date"; "time"; "timezone"; "tzinfo"; "MINYEAR"; "MAXYEAR" ].

(** The public attributes of the class [datetime.datetime]. *)
Definition class_members : list string :=
  [ "now"; "today"; "utcnow"; "fromtimestamp"; "utcfromtimestamp";
    "fromordinal"; "fromisoformat"; "combine"; "strptime"; "strftime";
    "min"; "max"; "resolution"; "year"; "month"; "day"; "hour"; "minute";
    "second"; "microsecond"; "tzinfo"; "fold"; "date"; "time"; "timetz";
    "replace"; "astimezone"; "utcoffset"; "dst"; "tzname"; "timetuple";
    "utctimetuple"; "toordinal"; "timestamp"; "weekday"; "isoweekday";
    "isocalendar"; "isoformat"; "ctime" ].

(** [o.name] *)
Definition getattr (o : pyobj) (name : string) : result pyobj :=
  match o with
  | datetime_module =>
      if String.eqb name "datetime" then Ok datetime_class
      else if String.eqb name "timedelta" then Ok timedelta_class
      else if has_name name module_members then Ok (member name)
      else Raise (AttributeError ("module 'datetime' has no attribute '" ++ name ++ "'"))
  | datetime_class =>
      if has_name name class_members then Ok (member name)
      else Raise (AttributeError
                    ("type object 'datetime.datetime' has no attribute '" ++ name ++ "'"))
  | timedelta_class | member _ =>
      Raise (AttributeError ("object has no attribute '" ++ name ++ "'"))
  end.

(** [o.a.b...] *)
Fixpoint resolve (o : pyobj) (path : list string) : result pyobj :=
  match path with
  | [] => Ok o
  | a :: rest => bind (getattr o a) (fun o' => resolve o' rest)
  end.

(** Line 20: [from datetime import datetime]. *)
Definition datetime : pyobj := datetime_class.

End Names.

(** ** The synchronizer: [ingest_ezproxy] *)

Module Sync.
Import Names.

Definition libraryLogsDirectory : string :=
  join_all [ "\\ulib-logs.m.storage.umich.edu"; "ulib-logs"; "archive";
             "sherry.umdl.umich.edu"; "l"; "local"; "logs"; "ezproxy" ].

(** The list [logs]: log type and path pattern. *)
Definition logs : list (string * string) :=
  [ ("proxyLogs", "\ezproxy\proxylogs"); ("accessLogs", "\ezproxy\access.log") ].

Definition destination (log_type : string) : string :=
  join_all [ "\\isr-llap"; "LibraryLogs_RAW"; "ezproxy"; log_type ].

(** [if not os.path.exists(p): os.makedirs(p)] *)
Definition ensure_dir (p : string) : M unit :=
  modify (fun w =>
    match disk w p with
    | Some _ => w
    | None =>
        World (sink w) (stdout w) (ticks w)
              (fun q => if String.eqb q p then Some [] else disk w q) (spawned w)
    end).

(** [os.listdir(p)] *)
Definition listdir (p : string) : M (list node) :=
  fun w =>
    match disk w p with
    | Some entries => (Ok entries, w)
    | None => (Raise (Exc "FileNotFoundError" p), w)
    end.

(** [os.popen(command)] *)
Definition popen (command : string) : M unit :=
  modify (fun w => World (sink w) (stdout w) (ticks w) (disk w)
                         (spawned w ++ [command])%list).

Definition read_clock (now : nat -> Z) : M Z :=
  fun w => (Ok (now (ticks w)), tick w).

(** Lines 71 to 79: the edit times of the files under the destination. *)
Fixpoint edit_times (dt : pyobj) (files : list (string * Z)) : M (list Z) :=
  match files with
  | [] => ret []
  | (_, mtime) :: rest =>
      lift (resolve dt ["datetime"; "fromtimestamp"]) ;;;
      let* edit_time := edit_times dt rest in
      ret (mtime :: edit_time)
  end.

(** [max(edit_time)] of a list that is not empty *)
Definition maximum (first : Z) (rest : list Z) : Z := fold_left Z.max rest first.

(** Lines 81 to 85. *)
Definition last_timestamp (dt : pyobj) (edit_time : list Z) : M Z :=
  match edit_time with
  | t :: rest => ret (maximum t rest)
  | [] => lift (resolve dt ["datetime"; "strptime"]) ;;; ret Datetime.year_2000
  end.

(** Lines 88 to 115: one entry of the library server. *)
Definition consider (dt : pyobj) (is_production : bool) (destinationPath pattern : string)
           (lastTimestamp todayTimestamp : Z) (file : node) : M unit :=
  let wholePath := join libraryLogsDirectory (name_of file) in
  if contains pattern wholePath
  then
    ensure_dir destinationPath ;;;
    let copyCommand := "copy " ++ wholePath ++ " " ++ destinationPath in
    lift (resolve dt ["datetime"; "fromtimestamp"]) ;;;
    let fileTimestamp := mtime_of file in
    if fileTimestamp >? lastTimestamp
    then
      lift (resolve dt ["timedelta"]) ;;;
      if fileTimestamp <? todayTimestamp - Datetime.one_day
      then
        if is_production
        then popen copyCommand
        else modify (print (Text ("copy command:   " ++ copyCommand))) ;;;
             modify (print (CopyNote fileTimestamp wholePath))
      else ret tt
    else ret tt
  else ret tt.

(** The body of [ingest_ezproxy], for what the name [datetime] denotes. *)
Definition ingest_ezproxy_with (dt : pyobj) (now : nat -> Z) (is_production : bool) : M unit :=
  lift (resolve dt ["datetime"; "now"]) ;;;
  let* todayTimestamp := read_clock now in
  for_each logs (fun log =>
    let destinationPath := destination log.1 in
    let pattern := log.2 in
    ensure_dir destinationPath ;;;
    let* archived := ask (fun w => match disk w destinationPath with
                                   | Some entries => walk destinationPath entries
                                   | None => []
                                   end) in
    let* edit_time := edit_times dt archived in
    let* lastTimestamp := last_timestamp dt edit_time in
    let* files := listdir libraryLogsDirectory in
    for_each files
      (consider dt is_production destinationPath pattern lastTimestamp todayTimestamp)).

(** [ingest_ezproxy(is_production)] under the import of line 20. *)
Definition ingest_ezproxy (now : nat -> Z) (is_production : bool) : M unit :=
  ingest_ezproxy_with datetime now is_production.

End Sync.

(** ** The run driver *)

Module Driver.

(** The values that the calls of the script pass. *)
Inductive pyval : Type :=
| VStr (s : string)
| VBool (b : bool)
| VFun (f : formatter).

(** Truth value of an object in [if x:]. *)
Definition truthy (v : pyval) : bool :=
  match v with
  | VStr s => negb (String.eqb s EmptyString)
  | VBool b => b
  | VFun _ => true
  end.

(** A call of [ingest_ezproxy] with positional and keyword arguments. *)
Definition call_ingest_ezproxy (now : nat -> Z) (args : list pyval)
           (kwargs : list (string * pyval)) : M unit :=
  let* bound := lift (bind_arguments "ingest_ezproxy" ["is_production"] args kwargs) in
  match assoc "is_production" bound with
  | Some v => Sync.ingest_ezproxy now (truthy v)
  | None => raise (TypeError "is_production")
  end.

(** Line 341: [ingest_ezproxy(isproduction = False)]. *)
Definition line_341 (now : nat -> Z) : M unit :=
  call_ingest_ezproxy now [] [("isproduction", VBool false)].

(** A call of [process_log] with positional and keyword arguments.  The
    embedding is typed: the two paths are strings and the parser is a
    function. *)
Definition call_process_log (invalid_files : gset string) (now : nat -> Z)
           (server : string -> db -> option (result db))
           (read_csv : string -> list read_event)
           (args : list pyval) (kwargs : list (string * pyval)) : M unit :=
  let* bound := lift (bind_arguments "process_log"
                        ["file_path"; "log_type"; "is_production"; "format_log"]
                        args kwargs) in
  match assoc "file_path" bound, assoc "log_type" bound,
        assoc "is_production" bound, assoc "format_log" bound with
  | Some (VStr file_path), Some (VStr log_type), Some is_production, Some (VFun format_log) =>
      process_log (Env invalid_files now server) (read_csv file_path)
                  file_path log_type (truthy is_production) format_log
  | _, _, _, _ => raise (TypeError "argument of a type outside the embedding")
  end.

(** [list_files(root_directory)] *)
Definition list_files (root_directory : string) : M (list string) :=
  ask (fun w => match disk w root_directory with
                | Some entries => map fst (walk root_directory entries)
                | None => []
                end).

(** Lines 375 to 384: one file of a configured directory. *)
Definition visit (processed_files invalid_files : gset string) (now : nat -> Z)
           (server : string -> db -> option (result db))
           (read_csv : string -> list read_event) (log_type : string)
           (format_log : formatter) (file_path : string) : M unit :=
  if bool_decide (file_path ∈ processed_files)
  then modify (print (Text ("Existing log:" ++ file_path)))
  else call_process_log invalid_files now server read_csv
         [VStr file_path; VStr log_type; VFun format_log] [].

(** Lines 350 to 384, for the [config] that line 348 loaded: pairs of
    [log_directory] and [log_type]. *)
Definition run_driver (now : nat -> Z) (server : string -> db -> option (result db))
           (read_csv : string -> list read_event)
           (config : list (string * string)) : M unit :=
  let* processed_files := ask get_processed_files in
  let* invalid_files := ask get_invalid_files in
  for_each config (fun log_config =>
    let open_path := log_config.1 in
    let log_type := log_config.2 in
    let* files := list_files open_path in
    let format_log := Parser.format_ezproxy in
    for_each files
      (visit processed_files invalid_files now server read_csv log_type format_log)).

(** The script from line 341 on. *)
Definition script (now : nat -> Z) (server : string -> db -> option (result db))
           (read_csv : string -> list read_event)
           (config : list (string * string)) : M unit :=
  line_341 now ;;; run_driver now server read_csv config.

(** *** What the statements about the driver speak of *)

(** The files of all the configured directories, in the order in which
    the driver meets them. *)
Definition enumerated (config : list (string * string)) (w : world) : list string :=
  flat_map (fun log_config : string * string =>
              match disk w log_config.1 with
              | Some entries => map fst (walk log_config.1 entries)
              | None => []
              end) config.

(** The files before the first one that is not processed. *)
Fixpoint skipped (processed_files : gset string) (files : list string) : list string :=
  match files with
  | [] => []
  | f :: rest =>
      if bool_decide (f ∈ processed_files) then f :: skipped processed_files rest else []
  end.

(** The line of line 380. *)
Definition line_of (file_path : string) : printed := Text ("Existing log:" ++ file_path).

(** What the call of line 384 raises. *)
Definition missing_argument : exn :=
  TypeError "process_log() missing 1 required positional argument: 'format_log'".

(** Every file of the list is processed. *)
Definition all_in (processed_files : gset string) (files : list string) : bool :=
  forallb (fun f => bool_decide (f ∈ processed_files)) files.

(** The world after some more lines on standard output. *)
Definition printing (ps : list printed) (w : world) : world :=
  World (sink w) (stdout w ++ ps)%list (ticks w) (disk w) (spawned w).

End Driver.

(** ** Concrete inputs *)

Module Samples.
Import Parser.

Definition q : string := String Regex.dquote EmptyString.

(** A line of the EZproxy dialect, with the quoted field between the
    referrer and the three geo fields. *)
Definition line_ok : string :=
  "192.0.2.5 - jdoe [01/Jan/2020:10:00:00 +0000] " ++ q ++ "GET /resource HTTP/1.1" ++ q
  ++ " 200 1234 SESSION1 http://ref " ++ q ++ "Mozilla/5.0 (X11)" ++ q
  ++ " - - - ABCDEFGHIJKLMNOPQRSTUV".

Definition line_junk : string := "junk".

(** A timed-out request: the request string is the placeholder [-]. *)
Definition line_dash_request : string :=
  "192.0.2.5 - jdoe [01/Jan/2020:10:00:00 +0000] " ++ q ++ "-" ++ q
  ++ " 408 - SESSION1 - " ++ q ++ "-" ++ q ++ " - - - -".

(** The month name is no month. *)
Definition line_bad_month : string :=
  "192.0.2.5 - jdoe [01/Xyz/2020:10:00:00 +0000] " ++ q ++ "GET /resource HTTP/1.1" ++ q
  ++ " 200 1234 SESSION1 http://ref " ++ q ++ "Mozilla/5.0 (X11)" ++ q
  ++ " - - - ABCDEFGHIJKLMNOPQRSTUV".

(** The bracketed field has the shape the grammar asks for, and no date. *)
Definition line_no_date : string :=
  "192.0.2.5 - jdoe [nodate +0000] " ++ q ++ "GET /resource HTTP/1.1" ++ q
  ++ " 200 1234 SESSION1 http://ref " ++ q ++ "Mozilla/5.0 (X11)" ++ q
  ++ " - - - ABCDEFGHIJKLMNOPQRSTUV".

(** A ledger that remembers one failed attempt on [f.log]. *)
Definition failed_run : row :=
  processing_record "f.log" "ezproxy" 5 6 false (Locals 0 0) (Str "boom").

Definition ledger : db :=
  fun t => if String.eqb t processing_time then [failed_run] else [].

Definition no_disk : string -> option (list node) := fun _ => None.

Definition world_0 : world := World ledger [] 0 no_disk [].

(** A server that does the usual with every statement. *)
Definition usual : string -> db -> option (result db) := fun _ _ => None.

(** The globals of a run that starts from [ledger]. *)
Definition env_0 : env := Env {[ "f.log" ]} (fun n => 100 + Z.of_nat n) usual.

Definition good_file : list read_event := [Chunk [line_ok; line_junk] None].

(** The second chunk cannot be parsed. *)
Definition bad_file : list read_event :=
  [Chunk [line_ok; line_junk] None; Chunk [line_bad_month] None].



(** A file name with an apostrophe, and a run that starts with one failed
    attempt on it in the ledger. *)
Definition obrien : string := "o'brien.log".

Definition world_obrien : world :=
  World (fun t => if String.eqb t processing_time
                  then [processing_record obrien "ezproxy" 5 6 false (Locals 0 0) (Str "boom")]
                  else [])
        [] 0 no_disk [].

Definition env_obrien : env := Env {[ obrien ]} (fun n => 100 + Z.of_nat n) usual.

(** A ledger that remembers a failed attempt on [f.log] and a valid one. *)
Definition world_both : world :=
  World (fun t => if String.eqb t processing_time
                  then [failed_run;
                        processing_record "f.log" "ezproxy" 7 8 true (Locals 1 1) NaN]
                  else [])
        [] 0 no_disk [].

(** A parser whose rows have a column [valid]. *)
Definition flagging : formatter := fun _ => Ok ([[("valid", Bool true)]], []).

(** The scenario of the synchronizer: the newest archived file is of
    2020-01-01, the library server holds a proxy log of 2020-01-02 and one
    of the present day, and it is noon of 2020-01-05. *)
Definition noon : nat -> Z := fun _ => Datetime.seconds_of 2020 1 5 12 0 0.

Definition library_disk : string -> option (list node) :=
  fun p =>
    if String.eqb p Sync.libraryLogsDirectory
    then Some [ File "proxylogs_20200102.log" (Datetime.seconds_of 2020 1 2 0 0 0);
                File "proxylogs_20200105.log" (Datetime.seconds_of 2020 1 5 9 0 0) ]
    else if String.eqb p (Sync.destination "proxyLogs")
    then Some [ File "proxylogs_20200101.log" (Datetime.seconds_of 2020 1 1 0 0 0) ]
    else None.

Definition library_world : world := World (fun _ => []) [] 0 library_disk [].

Definition copy_of_20200102 : string :=
  "copy " ++ join Sync.libraryLogsDirectory "proxylogs_20200102.log"
  ++ " " ++ Sync.destination "proxyLogs".

(** A configured directory with two files that no run has processed. *)
Definition logs_disk : string -> option (list node) :=
  fun p =>
    if String.eqb p "logs"
    then Some [ File "a.log" 0; Dir "sub" 0 [ File "b.log" 0 ] ]
    else None.

Definition logs_world : world := World (fun _ => []) [] 0 logs_disk [].

Definition reader : string -> list read_event := fun _ => good_file.

End Samples.

(** * Properties *)

(** ** The matcher *)

Module RegexFacts.
Import Regex.

Lemma keeps_refl (c : caps) : keeps c c.
Proof. intros g H. exact H. Qed.

Lemma keeps_trans (c1 c2 c3 : caps) : keeps c1 c2 -> keeps c2 c3 -> keeps c1 c3.
Proof. intros H12 H23 g H. apply H23, H12, H. Qed.

Lemma keeps_bind (name text : string) (c : caps) : keeps c ((name, text) :: c).
Proof.
  intros g H. unfold group in *. simpl.
  destruct (String.eqb g name); [discriminate|exact H].
Qed.

Lemma accept_oblivious : oblivious accept.
Proof. intros i s c c'. unfold accept. split; discriminate. Qed.

Lemma run_oblivious (r : re) :
  forall k, oblivious k -> oblivious (fun i s c => run r i s c k).
Proof.
  induction r as [| | |p|a IHa b IHb|a IHa b IHb|g p|name a IHa];
    intros k Hk i s c c'; simpl.
  - apply Hk.
  - destruct (i =? 0)%nat; [apply Hk|tauto].
  - destruct s as [|x [|y s]]; [apply Hk| |tauto].
    destruct (Ascii.eqb x newline); [apply Hk|tauto].
  - destruct s as [|x s]; [tauto|]. destruct (p x); [apply Hk|tauto].
  - apply (IHa (fun i' s' c0 => run b i' s' c0 k)). apply IHb, Hk.
  - pose proof (IHa k Hk i s c c') as Ha. pose proof (IHb k Hk i s c c') as Hb.
    simpl in Ha, Hb.
    destruct (run a i s c k), (run a i s c' k); try tauto;
      exfalso; destruct Ha as [H1 H2];
      first [discriminate (H1 eq_refl)|discriminate (H2 eq_refl)].
  - destruct g.
    + revert i. induction s as [|x s IHs]; intros i; [apply Hk|].
      destruct (p x); [|apply Hk].
      specialize (IHs (S i)). pose proof (Hk i (String x s) c c') as Hhere.
      match goal with
      | |- context [match ?m1 with Some _ => _ | None => _ end = None
                    <-> match ?m2 with Some _ => _ | None => _ end = None] =>
          destruct m1, m2; try tauto;
            exfalso; destruct IHs as [H1 H2];
            first [discriminate (H1 eq_refl)|discriminate (H2 eq_refl)]
      end.
    + revert i. induction s as [|x s IHs]; intros i.
      * pose proof (Hk i EmptyString c c') as Hhere.
        destruct (k i EmptyString c), (k i EmptyString c'); tauto.
      * pose proof (Hk i (String x s) c c') as Hhere. specialize (IHs (S i)).
        destruct (k i (String x s) c), (k i (String x s) c'); try tauto;
          try (exfalso; destruct Hhere as [H1 H2];
               first [discriminate (H1 eq_refl)|discriminate (H2 eq_refl)]).
        destruct (p x); [exact IHs|tauto].
  - apply (IHa (fun i' s' c0 => k i' s' ((name, prefix (i' - i) s) :: c0))).
    intros i' s' c1 c2. apply Hk.
Qed.

(** A match that succeeds has reached its continuation, and the groups
    bound on the way in are still bound there. *)
Lemma run_through (r : re) :
  forall k i s c res,
    run r i s c k = Some res ->
    exists i' s' c', keeps c c' /\ k i' s' c' = Some res.
Proof.
  induction r as [| | |p|a IHa b IHb|a IHa b IHb|g p|name a IHa];
    intros k i s c res H; simpl in H.
  - eauto using keeps_refl.
  - destruct (i =? 0)%nat; [eauto using keeps_refl|discriminate].
  - destruct s as [|x [|y s]]; [eauto using keeps_refl| |discriminate].
    destruct (Ascii.eqb x newline); [eauto using keeps_refl|discriminate].
  - destruct s as [|x s]; [discriminate|].
    destruct (p x); [eauto using keeps_refl|discriminate].
  - apply IHa in H as (i1 & s1 & c1 & K1 & H).
    apply IHb in H as (i2 & s2 & c2 & K2 & H).
    eauto 6 using keeps_trans.
  - destruct (run a i s c k) eqn:Ha.
    + injection H as <-. eauto.
    + eauto.
  - destruct g.
    + revert i H. induction s as [|x s IHs]; intros i H; [eauto using keeps_refl|].
      destruct (p x); [|eauto using keeps_refl].
      match type of H with
      | match ?m with Some _ => _ | None => _ end = _ => destruct m eqn:Hm
      end.
      * injection H as <-. eauto.
      * eauto using keeps_refl.
    + revert i H. induction s as [|x s IHs]; intros i H.
      * destruct (k i EmptyString c) eqn:Hk; [|discriminate].
        injection H as <-. eauto using keeps_refl.
      * destruct (k i (String x s) c) eqn:Hk.
        -- injection H as <-. eauto using keeps_refl.
        -- destruct (p x); [eauto|discriminate].
  - apply IHa in H as (i1 & s1 & c1 & K1 & H).
    exists i1, s1, ((name, prefix (i1 - i) s) :: c1). split; [|exact H].
    eapply keeps_trans; [exact K1|apply keeps_bind].
Qed.

(** A greedy repetition that fails has tried its continuation on the spot. *)
Lemma greedy_none (p : ascii -> bool) (k : nat -> string -> caps -> option caps) :
  forall s i c, run (Rep true p) i s c k = None -> k i s c = None.
Proof.
  simpl. induction s as [|x s IHs]; intros i c H; [exact H|].
  destruct (p x); [|exact H].
  match type of H with
  | match ?m with Some _ => _ | None => _ end = _ => destruct m; [discriminate|exact H]
  end.
Qed.

(** A match of a sequence has matched its first pieces and then the rest. *)
Lemma seq_through (l1 l2 : list re) :
  forall k i s c res,
    run (Seq (l1 ++ l2)) i s c k = Some res ->
    exists i' s' c', keeps c c' /\ run (Seq l2) i' s' c' k = Some res.
Proof.
  induction l1 as [|r l1 IH]; intros k i s c res H.
  - exists i, s, c. split; [apply keeps_refl|exact H].
  - simpl in H. apply run_through in H as (i1 & s1 & c1 & K1 & H).
    apply IH in H as (i2 & s2 & c2 & K2 & H).
    exists i2, s2, c2. split; [eapply keeps_trans; eassumption|exact H].
Qed.

Lemma search_from_found (r : re) :
  forall s i m,
    search_from r i s = Some m -> exists i' s', run r i' s' [] accept = Some m.
Proof.
  induction s as [|x s IHs]; intros i m H; simpl in H.
  - destruct (run r i EmptyString [] accept) eqn:Hr; [|discriminate].
    injection H as <-. eauto.
  - destruct (run r i (String x s) [] accept) eqn:Hr.
    + injection H as <-. eauto.
    + eauto.
Qed.

End RegexFacts.

(** ** The parser *)

Module ParserFacts.
Import Parser Samples.

(** A match of [regex_log] binds the request: the group is tried before it
    is skipped, and it can match the empty text. *)
Lemma regex_log_binds_request (line : string) (m : Regex.caps) :
  Regex.search regex_log line = Some m -> Regex.group "request" m <> None.
Proof.
  intros H. apply RegexFacts.search_from_found in H as (i & s & H).
  unfold regex_log in H.
  apply RegexFacts.seq_through in H as (i1 & s1 & c1 & _ & H).
  change (Regex.Seq (request_part :: after_request))
    with (Regex.Cat request_part (Regex.Seq after_request)) in H.
  cbn [Regex.run request_part Regex.Opt] in H.
  set (rest := fun i' s' c' => Regex.run (Regex.Seq after_request) i' s' c' Regex.accept) in H.
  assert (Hrest : Regex.oblivious rest)
    by apply (RegexFacts.run_oblivious (Regex.Seq after_request)), RegexFacts.accept_oblivious.
  set (taken := fun i' s' c' => rest i' s' (("request", Regex.prefix (i' - i1) s1) :: c')) in H.
  change (match Regex.run (Regex.Rep true Regex.is_dot) i1 s1 c1 taken with
          | Some res => Some res
          | None => rest i1 s1 c1
          end = Some m) in H.
  destruct (Regex.run (Regex.Rep true Regex.is_dot) i1 s1 c1 taken) as [res|] eqn:Htaken.
  - injection H as ->.
    apply RegexFacts.run_through in Htaken as (i2 & s2 & c2 & _ & Htaken).
    unfold taken, rest in Htaken.
    apply RegexFacts.run_through in Htaken as (i3 & s3 & c3 & K & Hacc).
    injection Hacc as ->. apply K. unfold Regex.group. simpl. discriminate.
  - apply RegexFacts.greedy_none in Htaken. unfold taken in Htaken.
    pose proof (proj1 (Hrest i1 s1 _ c1) Htaken) as Hskipped. congruence.
Qed.

(** The request of a line is not null exactly when the line matches
    [regex_log]. *)
Lemma matches_grammar (line : string) :
  matches line = true <-> Regex.search regex_log line <> None.
Proof.
  unfold matches, valid_row, extract_log, str_extract.
  destruct (Regex.search regex_log line) as [m|] eqn:Hm.
  - pose proof (regex_log_binds_request line m Hm) as Hreq.
    split; [discriminate|intros _].
    unfold get, log_columns. cbn [map assoc String.eqb Ascii.eqb Bool.eqb].
    destruct (Regex.group "request" m); [reflexivity|contradiction].
  - split; [discriminate|intros H; contradiction].
Qed.

Lemma select_lengths {A B : Type} (mask : list bool) :
  forall (l1 : list A) (l2 : list B),
    length l1 = length mask -> length l2 = length mask ->
    (length (select mask l1) + length (select (map negb mask) l2) = length mask)%nat.
Proof.
  induction mask as [|b mask IH]; intros l1 l2 H1 H2.
  - reflexivity.
  - destruct l1 as [|x l1]; [discriminate|].
    destruct l2 as [|y l2]; [discriminate|].
    injection H1 as H1. injection H2 as H2.
    specialize (IH l1 l2 H1 H2).
    destruct b; simpl; lia.
Qed.

Lemma to_datetime_length (column ts : list cell) :
  to_datetime column = Ok ts -> length ts = length column.
Proof.
  revert ts. induction column as [|c column IH]; intros ts H; simpl in H.
  - injection H as <-. reflexivity.
  - assert (Hrest : forall (head : cell),
               bind (to_datetime column) (fun ts0 => Ok (head :: ts0)) = Ok ts ->
               length ts = S (length column)).
    { intros head Hb. destruct (to_datetime column) as [ts0|e]; simpl in Hb; [|discriminate].
      injection Hb as <-. simpl. f_equal. apply IH. reflexivity. }
    destruct c; try (apply (Hrest _ H)).
    destruct (Datetime.strptime s); [apply (Hrest _ H)|discriminate].
Qed.

Lemma to_datetime_total (column : list cell) :
  forallb parses column = true -> exists ts, to_datetime column = Ok ts.
Proof.
  induction column as [|c column IH]; simpl; intros H.
  - eauto.
  - apply andb_prop in H as [Hc Hrest]. destruct (IH Hrest) as [ts Hts].
    rewrite Hts. destruct c; simpl; eauto.
    simpl in Hc. destruct (Datetime.strptime s); [eauto|discriminate].
Qed.

Lemma to_datetime_raises (column : list cell) (c : cell) :
  In c column -> parses c = false ->
  exists msg, to_datetime column = Raise (ValueError msg).
Proof.
  intros Hin Hc. induction column as [|c' column IH]; [destruct Hin|].
  simpl. destruct Hin as [->|Hin].
  - destruct c; simpl in Hc; try discriminate.
    destruct (Datetime.strptime s); [discriminate|eauto].
  - destruct (IH Hin) as [msg Hmsg]. rewrite Hmsg.
    destruct c'; simpl; eauto.
    destruct (Datetime.strptime s); simpl; eauto.
Qed.

Lemma set_column_length (col : string) (values : list cell) (df : frame) :
  length values = length df -> length (set_column col values df) = length df.
Proof.
  revert df. induction values as [|v values IH]; intros [|r df] H; simpl in *;
    try discriminate; auto.
Qed.

Lemma replace_length (old : string) (df : frame) : length (replace old df) = length df.
Proof. unfold replace. apply length_map. Qed.

Lemma kept_cons (line : string) (chunk : list string) :
  kept (line :: chunk) =
  if matches line then extract_log line :: kept chunk else kept chunk.
Proof. reflexivity. Qed.

Lemma kept_parse (chunk : list string) :
  Forall (fun line => click_time_parses line = true) chunk ->
  forallb parses (map canonical_click_time (kept chunk)) = true.
Proof.
  induction 1 as [|line chunk Hline _ IH]; [reflexivity|].
  rewrite kept_cons. unfold click_time_parses in Hline.
  destruct (matches line); simpl in *; [|exact IH].
  rewrite Hline. exact IH.
Qed.

Lemma kept_In (chunk : list string) (line : string) :
  In line chunk -> matches line = true -> In (extract_log line) (kept chunk).
Proof.
  induction chunk as [|l chunk IH]; [intros []|].
  intros [->|Hin] Hm; rewrite kept_cons.
  - rewrite Hm. left. reflexivity.
  - destruct (matches l); [right|]; auto.
Qed.

Lemma format_ezproxy_unfold (chunk : list string) :
  format_ezproxy chunk =
  bind (to_datetime (map canonical_click_time (kept chunk))) (fun click_time =>
    Ok (replace " " (replace "-" (set_column "click_time" click_time (kept chunk))),
        select (map negb (map valid_row (map extract_log chunk))) (map raw chunk))).
Proof. reflexivity. Qed.

Lemma format_ezproxy_counts (chunk : list string) (df_logs df_invalid : frame) :
  format_ezproxy chunk = Ok (df_logs, df_invalid) ->
  (length df_logs + length df_invalid = length chunk)%nat.
Proof.
  rewrite format_ezproxy_unfold.
  destruct (to_datetime _) as [ts|e] eqn:Hts; simpl; [|discriminate].
  intros H. injection H as <- <-.
  apply to_datetime_length in Hts. rewrite length_map in Hts.
  rewrite !replace_length, set_column_length by exact Hts.
  unfold kept.
  rewrite (select_lengths (map valid_row (map extract_log chunk))
             (map extract_log chunk) (map raw chunk));
    rewrite !length_map; reflexivity.
Qed.

Lemma format_ezproxy_returns (chunk : list string) :
  Forall (fun line => click_time_parses line = true) chunk ->
  exists df_logs df_invalid, format_ezproxy chunk = Ok (df_logs, df_invalid).
Proof.
  intros H. rewrite format_ezproxy_unfold.
  destruct (to_datetime_total _ (kept_parse chunk H)) as [ts ->]. simpl. eauto.
Qed.

Lemma invalid_partition (chunk : list string) :
  select (map negb (map valid_row (map extract_log chunk))) (map raw chunk)
  = map raw (List.filter (fun line => negb (matches line)) chunk).
Proof.
  induction chunk as [|line chunk IH]; [reflexivity|].
  simpl. fold (matches line). destruct (matches line); simpl; congruence.
Qed.

Lemma kept_length (chunk : list string) :
  length (kept chunk) = length (List.filter matches chunk).
Proof.
  induction chunk as [|line chunk IH]; [reflexivity|].
  rewrite kept_cons. simpl. destruct (matches line); simpl; congruence.
Qed.

Lemma get_set_col_same (col : string) (v : cell) (r : row) :
  get col (set_col col v r) = v.
Proof.
  unfold get. induction r as [|[k c] r IH]; simpl.
  - rewrite String.eqb_refl. reflexivity.
  - destruct (String.eqb col k) eqn:E; simpl; rewrite E; [reflexivity|exact IH].
Qed.

Lemma get_set_col_other (col col' : string) (v : cell) (r : row) :
  col <> col' -> get col (set_col col' v r) = get col r.
Proof.
  intros Hne. unfold get. induction r as [|[k c] r IH]; simpl.
  - apply String.eqb_neq in Hne. rewrite Hne. reflexivity.
  - destruct (String.eqb col' k) eqn:E; simpl.
    + apply String.eqb_eq in E. subst k.
      apply String.eqb_neq in Hne. rewrite Hne. reflexivity.
    + destruct (String.eqb col k); [reflexivity|exact IH].
Qed.

Lemma get_replace (col old : string) (r : row) :
  get col (map (fun kc : string * cell => (kc.1, replace_cell old kc.2)) r)
  = replace_cell old (get col r).
Proof.
  unfold get. induction r as [|[k c] r IH]; simpl; [reflexivity|].
  destruct (String.eqb col k); [reflexivity|exact IH].
Qed.

(** Right after line 174 the comment of lines 168 to 170 holds: every row
    that is kept has a request. *)
Lemma kept_valid (chunk : list string) :
  Forall (fun r => valid_row r = true) (kept chunk).
Proof.
  induction chunk as [|line chunk IH]; [constructor|].
  rewrite kept_cons. destruct (matches line) eqn:Hm; [|exact IH].
  constructor; [exact Hm|exact IH].
Qed.

(** C5, as amended.  Whenever timestamp normalization raises on no line of
    the chunk, [format_ezproxy] returns, the invalid partition holds exactly
    the lines that do not match the grammar, the valid partition has one row
    per line that matches, and the two sizes add up to the number of input
    lines.  On any other chunk [format_ezproxy] raises [ValueError] and
    returns no partition. *)
Theorem format_ezproxy_partition (chunk : list string) :
  (Forall (fun line => click_time_parses line = true) chunk ->
   exists df_logs df_invalid,
     format_ezproxy chunk = Ok (df_logs, df_invalid)
     /\ df_invalid = map raw (List.filter (fun line => negb (matches line)) chunk)
     /\ length df_logs = length (List.filter matches chunk)
     /\ (length df_logs + length df_invalid = length chunk)%nat)
  /\ (Exists (fun line => click_time_parses line = false) chunk ->
      exists msg, format_ezproxy chunk = Raise (ValueError msg)).
Proof.
  split.
  - intros H.
    destruct (format_ezproxy_returns chunk H) as (df_logs & df_invalid & Hf).
    exists df_logs, df_invalid. split; [exact Hf|].
    pose proof (format_ezproxy_counts chunk df_logs df_invalid Hf) as Hsum.
    rewrite format_ezproxy_unfold in Hf.
    destruct (to_datetime _) as [ts|e] eqn:Hts; simpl in Hf; [|discriminate].
    injection Hf as <- <-.
    apply to_datetime_length in Hts. rewrite length_map in Hts.
    repeat split.
    + apply invalid_partition.
    + rewrite !replace_length, set_column_length by exact Hts. apply kept_length.
    + exact Hsum.
  - intros H. apply Exists_exists in H as (line & Hin & Hline).
    unfold click_time_parses in Hline. apply orb_false_elim in Hline as [Hm Hp].
    apply negb_false_iff in Hm.
    rewrite format_ezproxy_unfold.
    destruct (to_datetime_raises (map canonical_click_time (kept chunk))
                (canonical_click_time (extract_log line))) as [msg ->].
    + apply in_map, kept_In; [apply list_elem_of_In, Hin|exact Hm].
    + exact Hp.
    + simpl. eauto.
Qed.

Lemma format_ezproxy_partition_witness :
  (exists df_logs df_invalid,
     format_ezproxy [line_ok; line_junk] = Ok (df_logs, df_invalid)
     /\ df_invalid = map raw (List.filter (fun line => negb (matches line)) [line_ok; line_junk])
     /\ length df_logs = length (List.filter matches [line_ok; line_junk])
     /\ (length df_logs + length df_invalid = length [line_ok; line_junk])%nat)
  /\ (exists msg, format_ezproxy [line_ok; line_bad_month] = Raise (ValueError msg)).
Proof.
  split.
  - apply (format_ezproxy_partition [line_ok; line_junk]).
    repeat constructor; vm_compute; reflexivity.
  - apply (format_ezproxy_partition [line_ok; line_bad_month]).
    apply Exists_cons_tl, Exists_cons_hd. vm_compute. reflexivity.
Defined.

(** C5, as stated, fails on a chunk in which a line matches the grammar and
    carries a month name that is no month: [format_ezproxy] raises, and
    assigns no line to any partition. *)
Lemma format_ezproxy_raises_on_bad_month :
  ~ exists df_logs df_invalid,
      format_ezproxy [line_ok; line_bad_month] = Ok (df_logs, df_invalid)
      /\ (length df_logs + length df_invalid = 2)%nat.
Proof.
  intros (df_logs & df_invalid & H & _).
  vm_compute in H. discriminate H.
Qed.

(** C6 at its failing input: a line whose request string is the
    placeholder [-] is kept as valid, and null-token normalization then
    makes its request null. *)
Theorem format_ezproxy_null_request :
  exists r,
    format_ezproxy [line_dash_request] = Ok ([r], [])
    /\ get "request" (extract_log line_dash_request) = Str "-"
    /\ get "request" r = NaN.
Proof.
  eexists. split; [vm_compute; reflexivity|].
  split; vm_compute; reflexivity.
Qed.

Lemma to_datetime_stamps (column ts : list cell) :
  to_datetime column = Ok ts -> ts = map stamp column.
Proof.
  revert ts. induction column as [|c column IH]; intros ts H; simpl in H.
  - injection H as <-. reflexivity.
  - destruct c as [|s| | |]; simpl;
      try (destruct (to_datetime column) as [ts0|e]; simpl in H; [|discriminate];
           injection H as <-; f_equal; apply IH; reflexivity).
    destruct (Datetime.strptime s); [|discriminate].
    destruct (to_datetime column) as [ts0|e]; simpl in H; [|discriminate].
    injection H as <-. f_equal. apply IH. reflexivity.
Qed.

Lemma set_column_map (col : string) (f : row -> cell) (df : frame) :
  set_column col (map f df) df = map (fun r => set_col col (f r) r) df.
Proof. induction df as [|r df IH]; simpl; congruence. Qed.

(** The valid partition is made row by row from the kept rows, and the
    invalid one from the lines that do not match. *)
Lemma format_ezproxy_rows (chunk : list string) (df_logs df_invalid : frame) :
  format_ezproxy chunk = Ok (df_logs, df_invalid) ->
  df_logs = map finish (kept chunk)
  /\ df_invalid = map raw (List.filter (fun line => negb (matches line)) chunk).
Proof.
  rewrite format_ezproxy_unfold.
  destruct (to_datetime _) as [ts|e] eqn:Hts; simpl; [|discriminate].
  intros H. injection H as <- <-. split; [|apply invalid_partition].
  apply to_datetime_stamps in Hts. subst ts.
  rewrite map_map, set_column_map. unfold replace, finish.
  rewrite !map_map. reflexivity.
Qed.

Lemma kept_app (a b : list string) : kept (a ++ b) = (kept a ++ kept b)%list.
Proof.
  induction a as [|line a IH]; [reflexivity|].
  change ((line :: a) ++ b)%list with (line :: (a ++ b))%list.
  rewrite !kept_cons, IH. destruct (matches line); reflexivity.
Qed.

Lemma to_datetime_app (x y : list cell) :
  to_datetime (x ++ y) =
  bind (to_datetime x) (fun tx => bind (to_datetime y) (fun ty => Ok (tx ++ ty)%list)).
Proof.
  induction x as [|c x IH].
  - simpl. destruct (to_datetime y); reflexivity.
  - change ((c :: x) ++ y)%list with (c :: (x ++ y))%list.
    cbn [to_datetime]. rewrite IH.
    destruct c as [|s| | |]; try destruct (Datetime.strptime s);
      try reflexivity;
      destruct (to_datetime x); simpl; try reflexivity;
      destruct (to_datetime y); reflexivity.
Qed.

Lemma finish_click_time (r : row) :
  get "click_time" (finish r) = stamp (canonical_click_time r).
Proof.
  unfold finish. rewrite !get_replace, get_set_col_same.
  destruct (canonical_click_time r) as [|s| | |]; try reflexivity.
  simpl. destruct (Datetime.strptime s); reflexivity.
Qed.

(** With the date-times of its kept rows all accepted, [format_ezproxy]
    returns, and what it returns is made row by row. *)
Lemma format_ezproxy_row_by_row (chunk : list string) (ts : list cell) :
  to_datetime (map canonical_click_time (kept chunk)) = Ok ts ->
  format_ezproxy chunk
  = Ok (map finish (kept chunk),
        map raw (List.filter (fun line => negb (matches line)) chunk)).
Proof.
  intros Hts.
  destruct (format_ezproxy chunk) as [[df_logs df_invalid]|e] eqn:Hf.
  - apply format_ezproxy_rows in Hf as [-> ->]. reflexivity.
  - rewrite format_ezproxy_unfold, Hts in Hf. discriminate Hf.
Qed.

Lemma format_ezproxy_accepts (chunk : list string) (df_logs df_invalid : frame) :
  format_ezproxy chunk = Ok (df_logs, df_invalid) ->
  exists ts, to_datetime (map canonical_click_time (kept chunk)) = Ok ts.
Proof.
  rewrite format_ezproxy_unfold.
  destruct (to_datetime _) as [ts|e]; [eauto|discriminate].
Qed.

(** C7, as amended.  A line that matches the grammar is never routed to the
    invalid partition.  When no canonical date-time text can be extracted
    from its [click_time], the line stays valid with a null [click_time],
    wherever it stands in a chunk: between lines on which [format_ezproxy]
    returns, [format_ezproxy] returns, the valid partition has the record
    of the line, with a null [click_time], between the records of the lines
    before it and of the lines after it, and the invalid partition is made
    of theirs.  When such a text is extracted and the fixed layout rejects
    it, [format_ezproxy] raises [ValueError] on every chunk that holds the
    line. *)
Theorem format_ezproxy_click_time_failure (line : string) :
  matches line = true ->
  (forall chunk df_logs df_invalid,
      format_ezproxy chunk = Ok (df_logs, df_invalid) -> ~ In (raw line) df_invalid)
  /\ (canonical_click_time (extract_log line) = NaN ->
      exists r,
        get "click_time" r = NaN
        /\ forall before after logs_before invalid_before logs_after invalid_after,
             format_ezproxy before = Ok (logs_before, invalid_before) ->
             format_ezproxy after = Ok (logs_after, invalid_after) ->
             format_ezproxy (before ++ line :: after)
             = Ok ((logs_before ++ r :: logs_after)%list,
                   (invalid_before ++ invalid_after)%list))
  /\ (parses (canonical_click_time (extract_log line)) = false ->
      forall chunk, In line chunk ->
      exists msg, format_ezproxy chunk = Raise (ValueError msg)).
Proof.
  intros Hm. repeat split.
  - intros chunk df_logs df_invalid Hf Hin.
    rewrite format_ezproxy_unfold in Hf.
    destruct (to_datetime _); simpl in Hf; [|discriminate].
    injection Hf as _ <-.
    rewrite invalid_partition in Hin.
    apply in_map_iff in Hin as (l' & Heq & Hl'). injection Heq as ->.
    apply filter_In in Hl' as [_ Hl']. rewrite Hm in Hl'. discriminate.
  - intros Hnan. exists (finish (extract_log line)). split.
    + rewrite finish_click_time, Hnan. reflexivity.
    + intros before after logs_before invalid_before logs_after invalid_after Hb Ha.
      destruct (format_ezproxy_accepts _ _ _ Hb) as [tb Htb].
      destruct (format_ezproxy_accepts _ _ _ Ha) as [ta Hta].
      apply format_ezproxy_rows in Hb as [-> ->].
      apply format_ezproxy_rows in Ha as [-> ->].
      assert (Hkept : kept (before ++ line :: after)
                      = (kept before ++ extract_log line :: kept after)%list).
      { rewrite kept_app, kept_cons, Hm. reflexivity. }
      rewrite (format_ezproxy_row_by_row (before ++ line :: after) (tb ++ NaN :: ta)%list).
      * rewrite Hkept, map_app, List.filter_app. cbn [map List.filter].
        rewrite Hm. cbn [negb]. rewrite map_app. reflexivity.
      * rewrite Hkept, map_app, to_datetime_app, Htb. cbn [map bind to_datetime].
        rewrite Hnan, Hta. reflexivity.
  - intros Hbad chunk Hin. rewrite format_ezproxy_unfold.
    destruct (to_datetime_raises (map canonical_click_time (kept chunk))
                (canonical_click_time (extract_log line))) as [msg ->].
    + apply in_map. apply kept_In; assumption.
    + exact Hbad.
    + simpl. eauto.
Qed.

Lemma format_ezproxy_click_time_failure_witness :
  (exists r r0,
      get "click_time" r = NaN
      /\ format_ezproxy [line_ok; line_no_date; line_junk]
         = Ok ([r0; r], [raw line_junk]))
  /\ (exists msg, format_ezproxy [line_ok; line_bad_month] = Raise (ValueError msg)).
Proof.
  split.
  - destruct (format_ezproxy_click_time_failure line_no_date) as (_ & Hnull & _);
      [vm_compute; reflexivity|].
    destruct Hnull as (r & Hr & Hall); [vm_compute; reflexivity|].
    assert (H1 : exists r0, format_ezproxy [line_ok] = Ok ([r0], []))
      by (eexists; vm_compute; reflexivity).
    destruct H1 as [r0 H1].
    assert (H2 : format_ezproxy [line_junk] = Ok ([], [raw line_junk]))
      by (vm_compute; reflexivity).
    exists r, r0. split; [exact Hr|].
    exact (Hall [line_ok] [line_junk] _ _ _ _ H1 H2).
  - apply (format_ezproxy_click_time_failure line_bad_month);
      [vm_compute; reflexivity | vm_compute; reflexivity | right; left; reflexivity].
Defined.

(** C7, as stated, fails on a line that matches the grammar and whose
    [click_time] holds no date: the line is returned in the valid
    partition, and the invalid partition is empty. *)
Lemma format_ezproxy_keeps_undated_line :
  matches line_no_date = true
  /\ canonical_click_time (extract_log line_no_date) = NaN
  /\ exists r, format_ezproxy [line_no_date] = Ok ([r], []).
Proof.
  split; [vm_compute; reflexivity|].
  split; [vm_compute; reflexivity|].
  eexists. vm_compute. reflexivity.
Qed.

End ParserFacts.

(** ** The ingestion engine *)

Module EngineFacts.
Import Parser Samples ParserFacts.

(** *** Tables *)

Lemma filter_nil {A : Type} (f : A -> bool) (l : list A) :
  (forall x, In x l -> f x = false) -> List.filter f l = [].
Proof.
  induction l as [|x l IH]; intros H; [reflexivity|].
  simpl. rewrite (H x) by (left; reflexivity).
  apply IH. intros y Hy. apply H. right. exact Hy.
Qed.

Lemma filter_sublist {A : Type} (f : A -> bool) (l : list A) :
  List.filter f l `sublist_of` l.
Proof.
  induction l as [|x l IH]; simpl; [constructor|].
  destruct (f x); [apply sublist_skip|apply sublist_cons]; exact IH.
Qed.



Lemma sink_without_logs_of (file_path log_type : string) (w : world) (t : string) :
  sink (without_logs_of file_path log_type w) t =
  if String.eqb t invalid_logs
  then List.filter (fun r => negb (file_path_is file_path r))
         (if String.eqb t log_type
          then List.filter (fun r => negb (file_path_is file_path r)) (sink w t)
          else sink w t)
  else if String.eqb t log_type
       then List.filter (fun r => negb (file_path_is file_path r)) (sink w t)
       else sink w t.
Proof. reflexivity. Qed.


Lemma without_logs_of_sublist (file_path log_type : string) (w : world) (t : string) :
  sink (without_logs_of file_path log_type w) t `sublist_of` sink w t.
Proof.
  rewrite sink_without_logs_of.
  destruct (String.eqb t invalid_logs), (String.eqb t log_type);
    try reflexivity; try apply filter_sublist.
  etransitivity; apply filter_sublist.
Qed.

(** *** The Delete statements *)

Lemma execute_delete_carried_out (E : env) (table file_path : string)
      (failed_only : bool) (w : world) :
  carried_out E table file_path failed_only ->
  execute_delete E table file_path failed_only w
  = (Ok tt, on_sink (delete_where table (aimed_at file_path failed_only)) w).
Proof.
  intros [Hspliced Husual]. unfold execute_delete. rewrite Husual, Hspliced. reflexivity.
Qed.

Lemma delete_logs_of_carried_out (E : env) (file_path log_type : string) (w : world) :
  rolls_back E file_path log_type ->
  delete_logs_of E file_path log_type w = (Ok tt, without_logs_of file_path log_type w).
Proof.
  intros [Hlogs Hinvalid]. unfold delete_logs_of.
  rewrite (execute_delete_carried_out E log_type file_path false w Hlogs).
  rewrite (execute_delete_carried_out E invalid_logs file_path false _ Hinvalid).
  reflexivity.
Qed.

Lemma cleanup_invalid_carried_out (E : env) (file_path : string) (w : world) :
  (file_path ∈ invalid_files E -> carried_out E processing_time file_path true) ->
  cleanup_invalid E file_path w = (Ok tt, purged E file_path w).
Proof.
  intros H. unfold cleanup_invalid, purged.
  destruct (decide (file_path ∈ invalid_files E)) as [Hin|Hout].
  - rewrite (bool_decide_eq_true_2 _ Hin). apply execute_delete_carried_out, H, Hin.
  - rewrite (bool_decide_eq_false_2 _ Hout). reflexivity.
Qed.

(** What holds of the world before a Delete statement, and after the
    deletion that the statement means, holds after the statement, for a
    server that decides otherwise only by an error. *)
Lemma execute_delete_invariant (P : world -> Prop) (E : env) (table file_path : string)
      (failed_only : bool) (w : world) :
  errs_only E ->
  (forall w1, P w1 ->
              P (on_sink (delete_where table (aimed_at file_path failed_only)) w1)) ->
  P w -> P (execute_delete E table file_path failed_only w).2.
Proof.
  intros Herr Hdel Hw. unfold execute_delete.
  destruct (server E _ (sink w)) as [[d|e]|] eqn:Hserver.
  - exfalso. exact (Herr _ _ _ Hserver).
  - exact Hw.
  - destruct (spliced table file_path); [apply Hdel|]; exact Hw.
Qed.

Lemma delete_logs_of_invariant (P : world -> Prop) (E : env) (file_path log_type : string)
      (w : world) :
  errs_only E ->
  (forall w1 t, t = log_type \/ t = invalid_logs -> P w1 ->
                P (on_sink (delete_where t (file_path_is file_path)) w1)) ->
  P w -> P (delete_logs_of E file_path log_type w).2.
Proof.
  intros Herr Hdel Hw. unfold delete_logs_of.
  pose proof (execute_delete_invariant P E log_type file_path false w Herr
                (fun w1 => Hdel w1 log_type (or_introl eq_refl)) Hw) as H1.
  destruct (execute_delete E log_type file_path false w) as [[[]|e] w1]; cbn [snd] in H1.
  - apply execute_delete_invariant; [exact Herr| |exact H1].
    intros w2. apply Hdel. right. reflexivity.
  - exact H1.
Qed.

Lemma cleanup_invalid_invariant (P : world -> Prop) (E : env) (file_path : string)
      (w : world) :
  errs_only E ->
  (forall w1, P w1 ->
              P (on_sink (delete_where processing_time (aimed_at file_path true)) w1)) ->
  P w -> P (cleanup_invalid E file_path w).2.
Proof.
  intros Herr Hdel Hw. unfold cleanup_invalid.
  destruct (bool_decide _); [apply execute_delete_invariant; assumption|exact Hw].
Qed.

(** *** Tagging *)

Lemma tagged (col : string) (v : cell) (df : frame) :
  Forall (fun r => get col r = v) (assign col v df).
Proof.
  unfold assign. apply Forall_forall. intros r Hr.
  apply list_elem_of_In, in_map_iff in Hr as (r0 & <- & _).
  apply get_set_col_same.
Qed.

Lemma tagged_still (col col' : string) (v v' : cell) (df : frame) :
  col <> col' ->
  Forall (fun r => get col r = v) df ->
  Forall (fun r => get col r = v) (assign col' v' df).
Proof.
  intros Hne H. unfold assign. apply Forall_forall. intros r Hr.
  apply list_elem_of_In, in_map_iff in Hr as (r0 & <- & Hr0).
  rewrite get_set_col_other by exact Hne.
  rewrite Forall_forall in H. apply H, list_elem_of_In, Hr0.
Qed.

Lemma tagged_file_path (p : string) (df : frame) :
  Forall (fun r => get "file_path" r = Str p) df ->
  Forall (fun r => file_path_is p r = true) df.
Proof.
  intros H. eapply Forall_impl; [exact H|].
  intros r Hr. unfold file_path_is.
  apply bool_decide_eq_true_2. exact Hr.
Qed.

(** *** The loop over the chunks *)

Section Loop.
Variables (file_path log_type : string) (is_production : bool).
Variables (format_log : formatter) (processing_start_time : Z).

Let loop := chunks file_path log_type is_production format_log processing_start_time.

(** An invariant of the world holds after the loop when printing keeps it
    in a dry run and, in production, both inserts of rows of the file do. *)
Lemma chunks_invariant (P : world -> Prop) :
  (is_production = false -> forall w p, P w -> P (print p w)) ->
  (is_production = true -> forall w df table,
      table = log_type \/ table = invalid_logs ->
      Forall (fun r => file_path_is file_path r = true) df ->
      P w -> P (on_sink (to_sql table df) w)) ->
  forall chunker l w, P w -> P (loop chunker l w).2.
Proof.
  intros Hprint Hsql. unfold loop.
  induction chunker as [|ev chunker IH]; intros l w Hw; [exact Hw|].
  destruct ev as [lines arrives|e]; [|exact Hw]. simpl.
  destruct (arrives_at AtFormat arrives); [exact Hw|].
  destruct (format_log lines) as [[df_logs df_invalid]|e]; [|exact Hw].
  destruct (arrives_at AtLogs arrives); [exact Hw|].
  assert (H1 : P (if is_production
                  then on_sink (to_sql log_type
                         (assign "processing_start_time" (Stamp processing_start_time)
                            (assign "file_path" (Str file_path) df_logs))) w
                  else print (Shown
                         (assign "processing_start_time" (Stamp processing_start_time)
                            (assign "file_path" (Str file_path) df_logs))) w)).
  { destruct is_production eqn:Hp.
    - apply Hsql; auto. apply tagged_file_path, tagged_still; [discriminate|apply tagged].
    - apply Hprint; auto. }
  destruct (arrives_at AtInvalid arrives); [exact H1|].
  apply IH.
  destruct is_production eqn:Hp.
  - apply Hsql; auto. apply tagged_file_path, tagged.
  - apply Hprint; auto.
Qed.

Lemma chunks_exception chunker l w :
  (loop chunker l w).1.1 = first_exception format_log chunker.
Proof.
  unfold loop. revert l w.
  induction chunker as [|ev chunker IH]; intros l w; [reflexivity|].
  destruct ev as [lines arrives|e]; [|reflexivity]. simpl.
  destruct (arrives_at AtFormat arrives); [reflexivity|].
  destruct (format_log lines) as [[df_logs df_invalid]|e]; [|reflexivity].
  destruct (arrives_at AtLogs arrives); [reflexivity|].
  destruct (arrives_at AtInvalid arrives); [reflexivity|].
  apply IH.
Qed.

Lemma chunks_ticks chunker l w : ticks (loop chunker l w).2 = ticks w.
Proof.
  apply (chunks_invariant (fun w' => ticks w' = ticks w)); auto.
Qed.

(** The loop touches two tables only. *)
Lemma chunks_other_tables chunker l w t :
  t <> log_type -> t <> invalid_logs -> sink (loop chunker l w).2 t = sink w t.
Proof.
  intros Hl Hi.
  apply (chunks_invariant (fun w' => sink w' t = sink w t)); auto.
  intros _ w' df table Htable _ Hw'. simpl. unfold to_sql.
  destruct (String.eqb_spec t table) as [->|_]; [|exact Hw'].
  destruct Htable; contradiction.
Qed.

(** A dry run of the loop leaves every table as it was. *)
Lemma chunks_dry_run chunker l w t :
  is_production = false -> sink (loop chunker l w).2 t = sink w t.
Proof.
  intros Hp.
  apply (chunks_invariant (fun w' => sink w' t = sink w t)); auto.
  rewrite Hp. discriminate.
Qed.


End Loop.

(** *** The whole attempt *)

Lemma sink_record_run (E : env) (file_path log_type : string) (is_production : bool)
      (processing_start_time : Z) (valid : bool) (l : locals) (error : cell)
      (w : world) (t : string) :
  sink (record_run E file_path log_type is_production processing_start_time
          valid l error w) t =
  if is_production && String.eqb t processing_time
  then (sink w t ++ [processing_record file_path log_type processing_start_time
                       (now E (ticks w)) valid l error])%list
  else sink w t.
Proof. destruct is_production; reflexivity. Qed.

Lemma sink_purged (E : env) (file_path : string) (w : world) (t : string) :
  sink (purged E file_path w) t =
  if bool_decide (file_path ∈ invalid_files E) && String.eqb t processing_time
  then List.filter (fun r => negb (file_path_is file_path r && valid_is false r)) (sink w t)
  else sink w t.
Proof. unfold purged. destruct (bool_decide _); reflexivity. Qed.

Lemma ticks_purged (E : env) (file_path : string) (w : world) :
  ticks (purged E file_path w) = ticks w.
Proof. unfold purged. destruct (bool_decide _); reflexivity. Qed.

Lemma file_path_of_record (file_path log_type : string) (t0 t1 : Z) (valid : bool)
      (l : locals) (error : cell) :
  file_path_is file_path (processing_record file_path log_type t0 t1 valid l error) = true.
Proof. unfold file_path_is. apply bool_decide_eq_true_2. reflexivity. Qed.

Lemma not_processed (file_path : string) (w : world) :
  file_path ∉ get_processed_files w ->
  runs_of file_path true (sink w processing_time) = [].
Proof.
  intros Hnot. apply filter_nil. intros r Hr.
  destruct (file_path_is file_path r && valid_is true r) eqn:E; [exfalso|reflexivity].
  apply andb_prop in E as [Hp Hv]. apply Hnot.
  unfold get_processed_files, files_where_valid.
  apply elem_of_list_to_set, list_elem_of_omap. exists r. split.
  - apply list_elem_of_In, filter_In. auto.
  - unfold file_path_is in Hp. apply bool_decide_eq_true_1 in Hp.
    rewrite Hp. reflexivity.
Qed.

(** An invariant of the world holds after an attempt, however it ends,
    when printing and reading the clock keep it, the deletions that the
    three statements mean keep it and, in production, every insert of rows
    of the file does; the server decides otherwise than the usual only by
    an error. *)
Section Attempt.
Variables (E : env) (file_path log_type : string) (is_production : bool).
Variable P : world -> Prop.
Hypothesis Herr : errs_only E.
Hypothesis Hprint : forall w p, P w -> P (print p w).
Hypothesis Htick : forall w, P w -> P (tick w).
Hypothesis Hsql :
  is_production = true -> forall w df table,
    Forall (fun r => file_path_is file_path r = true) df ->
    P w -> P (on_sink (to_sql table df) w).
Hypothesis Hrollback :
  forall w t, t = log_type \/ t = invalid_logs -> P w ->
              P (on_sink (delete_where t (file_path_is file_path)) w).
Hypothesis Hpurge :
  forall w, P w -> P (on_sink (delete_where processing_time (aimed_at file_path true)) w).

Lemma record_run_invariant (t0 : Z) (valid : bool) (l : locals) (error : cell) (w : world) :
  P w -> P (record_run E file_path log_type is_production t0 valid l error w).
Proof.
  intros Hw. unfold record_run. destruct is_production eqn:Hp.
  - apply Hsql; [reflexivity| |apply Htick, Hw].
    constructor; [apply file_path_of_record|constructor].
  - apply Hprint, Htick, Hw.
Qed.

Lemma handle_invariant (t0 : Z) (e : exn) (l : locals) (w : world) :
  P w -> P (handle E file_path log_type is_production t0 e l w).2.
Proof.
  intros Hw. destruct e as [|cls msg]; cbn [handle].
  - pose proof (delete_logs_of_invariant P E file_path log_type w Herr Hrollback Hw) as H.
    destruct (delete_logs_of E file_path log_type w) as [[[]|e'] w1]; exact H.
  - pose proof (delete_logs_of_invariant P E file_path log_type
                  (print (Text (str_of (Exc cls msg))) w) Herr Hrollback
                  (Hprint _ _ Hw)) as H.
    destruct (delete_logs_of E file_path log_type _) as [[[]|e'] w1]; cbn [snd] in *.
    + apply record_run_invariant, H.
    + exact H.
Qed.

Lemma process_log_invariant (chunker : list read_event) (format_log : formatter)
      (w : world) :
  P w -> P (process_log E chunker file_path log_type is_production format_log w).2.
Proof.
  intros Hw. unfold process_log.
  set (t0 := now E (ticks w)).
  set (w0 := print (Started file_path t0) (tick w)).
  assert (Hloop : P (chunks file_path log_type is_production format_log t0 chunker
                       (Locals 0 0) w0).2).
  { apply chunks_invariant.
    - intros _ w1 p. apply Hprint.
    - intros Hp w1 df table _ Hdf. apply Hsql; assumption.
    - apply Hprint, Htick, Hw. }
  destruct (chunks _ _ _ _ _ _ _ _) as [[[e|] l] wl]; cbn [snd] in Hloop.
  - apply handle_invariant, Hloop.
  - pose proof (cleanup_invalid_invariant P E file_path wl Herr Hpurge Hloop) as H.
    destruct (cleanup_invalid E file_path wl) as [[[]|e] w2]; cbn [snd] in *.
    + apply record_run_invariant, H.
    + apply handle_invariant, H.
Qed.

End Attempt.

(** X16.  The part of the dry-run contract that the code keeps: with
    [is_production = false] no table gains a row, however the attempt ends
    (each table afterwards is what is left of the table before when rows
    are taken out), as long as the server does not leave other tables than
    the statements mean. *)
Lemma process_log_dry_run_inserts_nothing (E : env) (chunker : list read_event)
      (file_path log_type : string) (format_log : formatter) (w : world) (t : string) :
  errs_only E ->
  sink (process_log E chunker file_path log_type false format_log w).2 t
  `sublist_of` sink w t.
Proof.
  intros Herr.
  apply (process_log_invariant E file_path log_type false
           (fun w' => sink w' t `sublist_of` sink w t) Herr); auto.
  - discriminate.
  - intros w1 t1 _ H. cbn [sink on_sink]. unfold delete_where.
    destruct (String.eqb t t1); [|exact H].
    etransitivity; [apply filter_sublist|exact H].
  - intros w1 H. cbn [sink on_sink]. unfold delete_where.
    destruct (String.eqb t processing_time); [|exact H].
    etransitivity; [apply filter_sublist|exact H].
Qed.

Lemma process_log_dry_run_inserts_nothing_witness :
  sink (process_log env_0 bad_file "f.log" "ezproxy" false format_ezproxy world_0).2
       processing_time
  `sublist_of` sink world_0 processing_time.
Proof.
  apply (process_log_dry_run_inserts_nothing env_0 bad_file "f.log" "ezproxy"
           format_ezproxy world_0 processing_time).
  intros statement d d'. discriminate.
Defined.

(** What a dry run does to the ledger of a file of [invalid_files] whose
    chunks raise nothing, when the purge is carried out: the failed runs of
    the file are deleted. *)
Lemma process_log_dry_run_purge (E : env) (chunker : list read_event)
      (file_path log_type : string) (format_log : formatter) (w : world) :
  file_path ∈ invalid_files E ->
  carried_out E processing_time file_path true ->
  first_exception format_log chunker = None ->
  sink (process_log E chunker file_path log_type false format_log w).2 processing_time
  = List.filter (fun r => negb (file_path_is file_path r && valid_is false r))
      (sink w processing_time).
Proof.
  intros Hinv Hpurge Hexn. unfold process_log.
  pose proof (chunks_exception file_path log_type false format_log (now E (ticks w))
                chunker (Locals 0 0)
                (print (Started file_path (now E (ticks w))) (tick w))) as Ho.
  pose proof (chunks_dry_run file_path log_type false format_log (now E (ticks w))
                chunker (Locals 0 0)
                (print (Started file_path (now E (ticks w))) (tick w))
                processing_time eq_refl) as Hdry.
  destruct (chunks _ _ _ _ _ _ _ _) as [[o l] wl]. simpl in Ho, Hdry.
  rewrite Hexn in Ho. subst o.
  rewrite cleanup_invalid_carried_out by (intros _; exact Hpurge). cbn [snd].
  rewrite sink_record_run, sink_purged. cbn [andb].
  rewrite (bool_decide_eq_true_2 _ Hinv), String.eqb_refl. cbn [andb].
  rewrite Hdry. reflexivity.
Qed.

(** C1 at its failing input: a dry run on a file of [invalid_files] that
    parses well deletes the failed run of the file from [processing_time],
    and records nothing in its place. *)
Theorem process_log_dry_run_purges_ledger :
  let out := process_log env_0 good_file "f.log" "ezproxy" false format_ezproxy world_0 in
  sink world_0 processing_time = [failed_run]
  /\ out.1 = Ok tt
  /\ sink out.2 processing_time = [].
Proof. vm_compute. auto. Qed.







(** C9, as amended.  In production, for a log type whose table is not
    [processing_time] itself: when the path is in [invalid_files], has no
    valid run yet, no exception ends the loop over the chunks and the
    server carries out the purge, then afterwards [processing_time] holds
    no failed run of the path and exactly one valid run of it, without an
    error text. *)
Theorem process_log_promotion (E : env) (chunker : list read_event)
        (file_path log_type : string) (format_log : formatter) (w : world) :
  file_path ∈ invalid_files E ->
  first_exception format_log chunker = None ->
  carried_out E processing_time file_path true ->
  log_type <> processing_time ->
  file_path ∉ get_processed_files w ->
  exists w' r,
    process_log E chunker file_path log_type true format_log w = (Ok tt, w')
    /\ runs_of file_path false (sink w' processing_time) = []
    /\ runs_of file_path true (sink w' processing_time) = [r]
    /\ get "valid" r = Bool true
    /\ get "error" r = NaN.
Proof.
  intros Hinv Hexn Hpurge Hlt Hnew. unfold process_log.
  set (t0 := now E (ticks w)).
  set (w0 := print (Started file_path t0) (tick w)).
  pose proof (chunks_exception file_path log_type true format_log t0 chunker
                (Locals 0 0) w0) as Ho.
  pose proof (chunks_other_tables file_path log_type true format_log t0 chunker
                (Locals 0 0) w0 processing_time) as Hpt.
  destruct (chunks _ _ _ _ _ _ _ _) as [[o l] wl]. simpl in Ho, Hpt.
  rewrite Hexn in Ho. subst o.
  change (sink w0 processing_time) with (sink w processing_time) in Hpt.
  rewrite cleanup_invalid_carried_out by (intros _; exact Hpurge).
  pose (w2 := purged E file_path wl).
  exists (record_run E file_path log_type true t0 true l NaN w2),
         (processing_record file_path log_type t0 (now E (ticks w2)) true l NaN).
  split; [reflexivity|].
  rewrite sink_record_run, String.eqb_refl, andb_true_r.
  assert (Hold : sink w2 processing_time
                 = List.filter (fun r => negb (file_path_is file_path r && valid_is false r))
                     (sink w processing_time)).
  { unfold w2. rewrite sink_purged, String.eqb_refl.
    rewrite (bool_decide_eq_true_2 _ Hinv). cbn [andb].
    rewrite Hpt by (congruence || discriminate). reflexivity. }
  rewrite Hold.
  assert (Hself : forall r : row, get "file_path" r = Str file_path ->
                    file_path_is file_path r = true).
  { intros r Hr. unfold file_path_is. apply bool_decide_eq_true_2. exact Hr. }
  assert (Hfailed : runs_of file_path false
                      (List.filter (fun r => negb (file_path_is file_path r && valid_is false r))
                         (sink w processing_time)) = []).
  { apply filter_nil. intros r Hr. apply filter_In in Hr as [_ Hr].
    destruct (file_path_is file_path r && valid_is false r);
      [discriminate|reflexivity]. }
  assert (Hvalid : runs_of file_path true
                     (List.filter (fun r => negb (file_path_is file_path r && valid_is false r))
                        (sink w processing_time)) = []).
  { apply filter_nil. intros r Hr. apply filter_In in Hr as [Hr _].
    pose proof (not_processed file_path w Hnew) as Hnone.
    destruct (file_path_is file_path r && valid_is true r) eqn:Hr1; [|reflexivity].
    assert (Hin : In r (runs_of file_path true (sink w processing_time)))
      by (apply filter_In; auto).
    rewrite Hnone in Hin. destruct Hin. }
  cbv iota.
  unfold runs_of in *. rewrite !List.filter_app, Hfailed, Hvalid.
  cbn [List.filter app]. rewrite Hself by reflexivity.
  repeat split; reflexivity.
Qed.

Lemma process_log_promotion_witness :
  exists w' r,
    process_log env_0 good_file "f.log" "ezproxy" true format_ezproxy world_0 = (Ok tt, w')
    /\ runs_of "f.log" false (sink w' processing_time) = []
    /\ runs_of "f.log" true (sink w' processing_time) = [r]
    /\ get "valid" r = Bool true
    /\ get "error" r = NaN.
Proof.
  apply (process_log_promotion env_0 good_file "f.log" "ezproxy" format_ezproxy world_0).
  - vm_compute. reflexivity.
  - vm_compute. reflexivity.
  - repeat split.
  - discriminate.
  - vm_compute. discriminate.
Defined.

(** C9, as stated, fails in production at three inputs.  For the path
    [o'brien.log], in [invalid_files] with one failed run, the purge is an
    unclosed literal and raises; so does the first Delete statement of the
    handler that catches it: [process_log] leaves with the error of the
    server, the failed run stays and no valid run is recorded.  For a path
    that has a valid run already, the attempt adds a second.  For the log
    type [processing_time] and a parser whose rows have a [valid] column,
    the rows of the chunk count as valid runs of the path. *)
Lemma process_log_promotion_fails :
  (let out := process_log env_obrien good_file obrien "ezproxy" true format_ezproxy
                world_obrien in
   obrien ∈ invalid_files env_obrien
   /\ obrien ∈ get_invalid_files world_obrien
   /\ first_exception format_ezproxy good_file = None
   /\ out.1 = Raise (ProgrammingError "Delete from ezproxy where file_path = 'o'brien.log'")
   /\ length (runs_of obrien false (sink out.2 processing_time)) = 1%nat
   /\ runs_of obrien true (sink out.2 processing_time) = [])
  /\
  (let out := process_log env_0 good_file "f.log" "ezproxy" true format_ezproxy
                world_both in
   "f.log" ∈ invalid_files env_0
   /\ "f.log" ∈ get_invalid_files world_both
   /\ out.1 = Ok tt
   /\ runs_of "f.log" false (sink out.2 processing_time) = []
   /\ length (runs_of "f.log" true (sink out.2 processing_time)) = 2%nat)
  /\
  (let out := process_log env_0 good_file "f.log" processing_time true flagging world_0 in
   "f.log" ∈ invalid_files env_0
   /\ "f.log" ∈ get_invalid_files world_0
   /\ ("f.log" ∉ get_processed_files world_0)
   /\ first_exception flagging good_file = None
   /\ out.1 = Ok tt
   /\ length (runs_of "f.log" true (sink out.2 processing_time)) = 2%nat).
Proof.
  vm_compute. repeat split; try reflexivity; try discriminate.
Qed.

End EngineFacts.

(** ** The synchronizer *)

Module SyncFacts.
Import Names Sync Driver Samples.

(** The name [datetime] is the class, and the class has no attribute
    [datetime]. *)
Lemma datetime_datetime :
  resolve datetime ["datetime"; "now"]
  = Raise (AttributeError "type object 'datetime.datetime' has no attribute 'datetime'").
Proof. reflexivity. Qed.

(** C10.  The body of [ingest_ezproxy] raises [AttributeError] at line 49
    whatever the flag and the world are, the call of line 341 raises
    [TypeError] for its keyword, and so every call raises; in each case the
    world is left as it was: no directory made, no command started, nothing
    printed. *)
Theorem ingest_ezproxy_always_raises (now : nat -> Z) :
  (forall is_production w,
      ingest_ezproxy now is_production w
      = (Raise (AttributeError "type object 'datetime.datetime' has no attribute 'datetime'"), w))
  /\ (forall w,
      line_341 now w
      = (Raise (TypeError "ingest_ezproxy() got an unexpected keyword argument 'isproduction'"), w))
  /\ (forall args kwargs w,
      exists e, call_ingest_ezproxy now args kwargs w = (Raise e, w)).
Proof.
  split; [reflexivity|]. split; [reflexivity|].
  intros args kwargs w. unfold call_ingest_ezproxy, and_then, lift.
  destruct (bind_arguments "ingest_ezproxy" ["is_production"] args kwargs) as [bound|e]; [|eauto].
  destruct (assoc "is_production" bound); eauto.
Qed.

(** Under [import datetime] the body would reach the loop: what it does
    with one matching entry of the library server. *)
Lemma consider_with_module (is_production : bool) (destinationPath pattern : string)
      (lastTimestamp todayTimestamp : Z) (file : node) (w : world) :
  disk w destinationPath <> None ->
  contains pattern (join libraryLogsDirectory (name_of file)) = true ->
  consider datetime_module is_production destinationPath pattern
           lastTimestamp todayTimestamp file w
  = (Ok tt,
     if (mtime_of file >? lastTimestamp)
        && (mtime_of file <? todayTimestamp - Datetime.one_day)
     then
       let copyCommand :=
         "copy " ++ join libraryLogsDirectory (name_of file) ++ " " ++ destinationPath in
       if is_production
       then World (sink w) (stdout w) (ticks w) (disk w) (spawned w ++ [copyCommand])%list
       else print (CopyNote (mtime_of file) (join libraryLogsDirectory (name_of file)))
              (print (Text ("copy command:   " ++ copyCommand)) w)
     else w).
Proof.
  intros Hdir Hpat. unfold consider. rewrite Hpat.
  change (resolve datetime_module ["datetime"; "fromtimestamp"])
    with (@Ok pyobj (member "fromtimestamp")).
  change (resolve datetime_module ["timedelta"]) with (@Ok pyobj timedelta_class).
  destruct w as [d o n k sp]. cbn [disk] in Hdir.
  unfold and_then, ensure_dir, modify, lift, popen, ret, print.
  cbn [sink stdout ticks disk spawned].
  destruct (k destinationPath); [|contradiction].
  destruct (mtime_of file >? lastTimestamp); cbn [andb]; [|reflexivity].
  destruct (mtime_of file <? todayTimestamp - Datetime.one_day); [|reflexivity].
  destruct is_production; reflexivity.
Qed.

Lemma maximum_upper (first : Z) (rest : list Z) :
  first <= maximum first rest /\ Forall (fun t => t <= maximum first rest) rest.
Proof.
  unfold maximum. revert first. induction rest as [|t rest IH]; intros first; simpl.
  - split; [lia|constructor].
  - destruct (IH (Z.max first t)) as [H1 H2]. split; [lia|].
    constructor; [lia|exact H2].
Qed.

Lemma maximum_member (first : Z) (rest : list Z) :
  In (maximum first rest) (first :: rest).
Proof.
  unfold maximum. revert first. induction rest as [|t rest IH]; intros first; simpl.
  - auto.
  - destruct (IH (Z.max first t)) as [H|H].
    + rewrite <- H.
      destruct (Z.max_spec first t) as [[_ E]|[_ E]]; rewrite E; auto.
    + auto.
Qed.

(** Under [import datetime] the watermark would be the newest edit time
    under the destination, or the first second of the year 2000. *)
Lemma last_timestamp_with_module (edit_time : list Z) (w : world) :
  last_timestamp datetime_module edit_time w
  = (Ok match edit_time with
        | t :: rest => maximum t rest
        | [] => Datetime.year_2000
        end, w).
Proof. destruct edit_time; reflexivity. Qed.

(** C8 at its failing input.  The proxy log of 2020-01-02 is newer than the
    watermark and older than a day, and the name [datetime] bound to the
    module would have it copied; the script as it is raises before the
    scan, starts no command and prints nothing. *)
Theorem ingest_ezproxy_copies_nothing :
  let eligible := Datetime.seconds_of 2020 1 2 0 0 0 in
  let out := ingest_ezproxy noon true library_world in
  Datetime.seconds_of 2020 1 1 0 0 0 < eligible < noon 0%nat - Datetime.one_day
  /\ spawned (ingest_ezproxy_with datetime_module noon true library_world).2
     = [copy_of_20200102]
  /\ out.1 = Raise (AttributeError "type object 'datetime.datetime' has no attribute 'datetime'")
  /\ spawned out.2 = []
  /\ stdout out.2 = [].
Proof. vm_compute. repeat split; reflexivity. Qed.

End SyncFacts.

(** ** The run driver *)

Module DriverFacts.
Import Driver Samples.

Section Visit.
Variables (processed_files invalid_files : gset string) (now : nat -> Z).
Variable server : string -> db -> option (result db).
Variables (read_csv : string -> list read_event) (log_type : string).
Variable format_log : formatter.

(** Line 384 passes three arguments, [process_log] has four parameters. *)
Lemma call_with_three_arguments (a b c : pyval) (w : world) :
  call_process_log invalid_files now server read_csv [a; b; c] [] w
  = (Raise (TypeError "process_log() missing 1 required positional argument: 'format_log'"), w).
Proof. reflexivity. Qed.

(** With the flag in its place the call would run the engine. *)
Lemma call_with_four_arguments (file_path : string) (is_production : bool) (w : world) :
  call_process_log invalid_files now server read_csv
    [VStr file_path; VStr log_type; VBool is_production; VFun format_log] [] w
  = process_log (Env invalid_files now server) (read_csv file_path)
      file_path log_type is_production format_log w.
Proof. reflexivity. Qed.

(** A processed file is skipped, with a line on standard output. *)
Lemma visit_processed (file_path : string) (w : world) :
  file_path ∈ processed_files ->
  visit processed_files invalid_files now server read_csv log_type format_log file_path w
  = (Ok tt, print (Text ("Existing log:" ++ file_path)) w).
Proof.
  intros H. unfold visit. rewrite (bool_decide_eq_true_2 _ H). reflexivity.
Qed.

(** For any other file the call of line 384 raises, and the body of
    [process_log] does not run. *)
Lemma visit_new (file_path : string) (w : world) :
  file_path ∉ processed_files ->
  visit processed_files invalid_files now server read_csv log_type format_log file_path w
  = (Raise (TypeError "process_log() missing 1 required positional argument: 'format_log'"), w).
Proof.
  intros H. unfold visit. rewrite (bool_decide_eq_false_2 _ H).
  apply call_with_three_arguments.
Qed.

(** The loop over the files of one directory ends at the first file that
    is not processed; it changes no table and reads no clock. *)
Lemma visits (files : list string) (w : world) :
  let out := for_each files
               (visit processed_files invalid_files now server read_csv log_type format_log) w in
  sink out.2 = sink w /\ ticks out.2 = ticks w
  /\ (Forall (fun f => f ∈ processed_files) files -> out.1 = Ok tt)
  /\ (Exists (fun f => f ∉ processed_files) files ->
      out.1 = Raise (TypeError "process_log() missing 1 required positional argument: 'format_log'")).
Proof.
  revert w. induction files as [|f files IH]; intros w; cbn zeta.
  - repeat split; auto. intros H. inversion H.
  - cbn [for_each]. unfold and_then.
    destruct (decide (f ∈ processed_files)) as [Hin|Hnot].
    + rewrite visit_processed by exact Hin.
      destruct (IH (print (Text ("Existing log:" ++ f)) w)) as (H1 & H2 & H3 & H4).
      repeat split; auto.
      * intros H. apply H3. inversion H; assumption.
      * intros H. apply H4. inversion H; [contradiction|assumption].
    + rewrite visit_new by exact Hnot. repeat split; auto.
      intros H. inversion H; contradiction.
Qed.

End Visit.

Lemma and_then_run {A B : Type} (m : M A) (k : A -> M B) (w : world) :
  and_then m k w =
  match m w with
  | (Ok a, w') => k a w'
  | (Raise e, w') => (Raise e, w')
  end.
Proof. reflexivity. Qed.

(** The loop over the configuration, for the two sets that lines 352 and
    353 loaded. *)
Lemma configured (processed_files invalid_files : gset string) (now : nat -> Z)
      (server : string -> db -> option (result db))
      (read_csv : string -> list read_event) (config : list (string * string))
      (w : world) :
  let out :=
    for_each config (fun log_config =>
      let* files := list_files log_config.1 in
      for_each files
        (visit processed_files invalid_files now server read_csv log_config.2
               Parser.format_ezproxy)) w in
  sink out.2 = sink w /\ ticks out.2 = ticks w.
Proof.
  cbn zeta. revert w.
  induction config as [|[open_path log_type] config IH]; intros w.
  - split; reflexivity.
  - cbn [for_each]. rewrite !and_then_run. unfold list_files, ask.
    cbv beta iota. cbn [fst snd].
    destruct (visits processed_files invalid_files now server read_csv log_type
                Parser.format_ezproxy (match disk w open_path with
                  | Some entries => map fst (walk open_path entries)
                  | None => []
                  end) w) as (Hs & Ht & _ & _).
    destruct (for_each _ _ w) as [[[]|e] w1]; cbn [snd] in Hs, Ht.
    + destruct (IH w1) as [Hs1 Ht1].
      split; [rewrite <- Hs; exact Hs1|rewrite <- Ht; exact Ht1].
    + split; assumption.
Qed.

(** Whatever the configuration and the disk hold, the driver changes no
    table and reads no clock: no attempt on a file ever starts. *)
Lemma run_driver_never_ingests (now : nat -> Z)
      (server : string -> db -> option (result db))
      (read_csv : string -> list read_event)
      (config : list (string * string)) (w : world) :
  let out := run_driver now server read_csv config w in
  sink out.2 = sink w /\ ticks out.2 = ticks w.
Proof.
  cbn zeta. unfold run_driver. unfold and_then at 1. unfold and_then at 1.
  unfold ask. apply configured.
Qed.

(** Run from its top, the script ends at line 341 and does nothing. *)
Lemma script_stops_at_line_341 (now : nat -> Z)
      (server : string -> db -> option (result db))
      (read_csv : string -> list read_event)
      (config : list (string * string)) (w : world) :
  script now server read_csv config w
  = (Raise (TypeError "ingest_ezproxy() got an unexpected keyword argument 'isproduction'"), w).
Proof. reflexivity. Qed.

(** C2 at its failing input.  Neither file under [logs] is processed, and
    the driver ends at the first with the [TypeError] of the call: no
    attempt starts on either file (no clock is read, no start line is
    printed), and no table changes. *)
Theorem run_driver_raises_on_new_file :
  let out := run_driver noon usual reader [("logs", "ezproxy")] logs_world in
  (list_files "logs" logs_world).1 = Ok ["logs\a.log"; "logs\sub\b.log"]
  /\ get_processed_files logs_world = ∅
  /\ out.1 = Raise (TypeError "process_log() missing 1 required positional argument: 'format_log'")
  /\ ticks out.2 = 0%nat
  /\ stdout out.2 = []
  /\ sink out.2 "ezproxy" = []
  /\ sink out.2 processing_time = [].
Proof. vm_compute. repeat split; reflexivity. Qed.

End DriverFacts.

(** ** The parser, row by row *)

Module ParserLaws.
Import Parser Samples ParserFacts.

Lemma kept_from (chunk : list string) (r : row) :
  In r (kept chunk) ->
  exists line, In line chunk /\ matches line = true /\ r = extract_log line.
Proof.
  induction chunk as [|line chunk IH]; [intros []|].
  rewrite kept_cons. destruct (matches line) eqn:Hm.
  - intros [<-|H].
    + exists line. repeat split; [left; reflexivity|exact Hm].
    + destruct (IH H) as (l & ? & ? & ?). exists l. repeat split; [right| |]; assumption.
  - intros H. destruct (IH H) as (l & ? & ? & ?). exists l. repeat split; [right| |]; assumption.
Qed.

Lemma set_column_app (col : string) (v1 v2 : list cell) (d1 d2 : frame) :
  length v1 = length d1 ->
  set_column col (v1 ++ v2)%list (d1 ++ d2)%list
  = (set_column col v1 d1 ++ set_column col v2 d2)%list.
Proof.
  revert d1. induction v1 as [|v v1 IH]; intros [|r d1] H; simpl in *;
    try discriminate; [reflexivity|].
  rewrite IH by congruence. reflexivity.
Qed.

(** X1.  Where a chunk is cut makes no difference to the parser: on two
    chunks put end to end [format_ezproxy] returns the two valid partitions
    end to end and the two invalid partitions end to end, and it raises
    what the first of the two that raises does. *)
Theorem format_ezproxy_app (a b : list string) :
  format_ezproxy (a ++ b)
  = one_after_the_other (format_ezproxy a) (format_ezproxy b).
Proof.
  unfold one_after_the_other. rewrite !format_ezproxy_unfold, !invalid_partition.
  rewrite kept_app, map_app, to_datetime_app.
  destruct (to_datetime (map canonical_click_time (kept a))) as [ta|e] eqn:Ha;
    [|reflexivity].
  destruct (to_datetime (map canonical_click_time (kept b))) as [tb|e] eqn:Hb;
    [|reflexivity].
  cbn [bind fst snd]. f_equal. f_equal.
  - apply to_datetime_length in Ha. rewrite length_map in Ha.
    rewrite set_column_app by exact Ha.
    unfold replace. rewrite !map_app. reflexivity.
  - rewrite List.filter_app, map_app. reflexivity.
Qed.

(** X2.  Null-token normalization is complete: in a valid partition that
    [format_ezproxy] returns, no cell of any column is the text [-] or a
    single space. *)
Theorem format_ezproxy_no_null_token (chunk : list string) (df_logs df_invalid : frame)
        (r : row) (col : string) (c : cell) :
  format_ezproxy chunk = Ok (df_logs, df_invalid) ->
  In r df_logs -> In (col, c) r ->
  c <> Str "-" /\ c <> Str " ".
Proof.
  intros Hf Hr Hc. apply format_ezproxy_rows in Hf as [-> _].
  apply in_map_iff in Hr as (r0 & <- & _). unfold finish in Hc.
  apply in_map_iff in Hc as ([k1 c1] & Heq & Hc). injection Heq as _ <-.
  apply in_map_iff in Hc as ([k0 c0] & Heq & _). injection Heq as _ <-.
  cbn [snd]. destruct c0 as [|s| | |]; cbn [replace_cell]; try (split; discriminate).
  destruct (String.eqb_spec s "-") as [->|Hdash]; cbn [replace_cell];
    [split; discriminate|].
  destruct (String.eqb_spec s " ") as [->|Hspace]; split; congruence.
Qed.

Lemma format_ezproxy_no_null_token_witness :
  Str "408" <> Str "-" /\ Str "408" <> Str " ".
Proof.
  apply (format_ezproxy_no_null_token [line_dash_request]
           [finish (extract_log line_dash_request)] []
           (finish (extract_log line_dash_request)) "http_code" (Str "408")).
  - vm_compute. reflexivity.
  - left. reflexivity.
  - vm_compute. do 4 right. left. reflexivity.
Defined.

Lemma extract_log_columns (line : string) : map fst (extract_log line) = log_columns.
Proof.
  unfold extract_log, str_extract.
  destruct (Regex.search regex_log line); rewrite map_map; apply map_id.
Qed.

Lemma set_col_columns (col : string) (v : cell) (r : row) :
  In col (map fst r) -> map fst (set_col col v r) = map fst r.
Proof.
  induction r as [|[k c] r IH]; [intros []|]. simpl.
  destruct (String.eqb_spec col k) as [->|Hne]; [reflexivity|].
  intros [H|H]; [congruence|]. simpl. f_equal. apply IH, H.
Qed.

Lemma finish_columns (r : row) :
  In "click_time" (map fst r) -> map fst (finish r) = map fst r.
Proof.
  intros H. unfold finish. rewrite !map_map. cbn [fst].
  change (map (fun x : string * cell => x.1)) with (map (@fst string cell)).
  apply set_col_columns, H.
Qed.

(** X3.  Every record of a valid partition that [format_ezproxy] returns
    has the eleven columns of [regex_log], in the order of the pattern, and
    its [click_time] is null or a timestamp, never a text. *)
Theorem format_ezproxy_schema (chunk : list string) (df_logs df_invalid : frame)
        (r : row) :
  format_ezproxy chunk = Ok (df_logs, df_invalid) ->
  In r df_logs ->
  map fst r = log_columns
  /\ (get "click_time" r = NaN \/ exists t, get "click_time" r = Stamp t).
Proof.
  intros Hf Hr. apply format_ezproxy_rows in Hf as [-> _].
  apply in_map_iff in Hr as (r0 & <- & Hr0).
  apply kept_from in Hr0 as (line & _ & _ & ->). split.
  - rewrite finish_columns; rewrite extract_log_columns; [reflexivity|].
    vm_compute. tauto.
  - rewrite finish_click_time.
    destruct (canonical_click_time (extract_log line)) as [|s| | |]; simpl; auto.
    destruct (Datetime.strptime s); eauto.
Qed.

Lemma format_ezproxy_schema_witness :
  map fst (finish (extract_log line_ok)) = log_columns
  /\ (get "click_time" (finish (extract_log line_ok)) = NaN
      \/ exists t, get "click_time" (finish (extract_log line_ok)) = Stamp t).
Proof.
  apply (format_ezproxy_schema [line_ok; line_junk] [finish (extract_log line_ok)]
           [raw line_junk]).
  - vm_compute. reflexivity.
  - left. reflexivity.
Defined.

(** X4.  The invalid partition that [format_ezproxy] returns holds the
    lines of the chunk that [regex_log] does not match, and nothing else;
    each of its records is the one column [log] with the line as it was
    read. *)
Theorem format_ezproxy_invalid_verbatim (chunk : list string)
        (df_logs df_invalid : frame) (r : row) :
  format_ezproxy chunk = Ok (df_logs, df_invalid) ->
  (In r df_invalid <->
   exists line, In line chunk /\ Regex.search regex_log line = None
                /\ r = [("log", Str line)]).
Proof.
  intros Hf. apply format_ezproxy_rows in Hf as [_ ->]. split.
  - intros H. apply in_map_iff in H as (line & <- & H).
    apply filter_In in H as [Hin Hm]. exists line. repeat split; [exact Hin|].
    destruct (Regex.search regex_log line) eqn:Hs; [|reflexivity].
    assert (matches line = true) by (apply matches_grammar; congruence).
    rewrite H in Hm. discriminate.
  - intros (line & Hin & Hs & ->). apply in_map_iff. exists line.
    split; [reflexivity|]. apply filter_In. split; [exact Hin|].
    destruct (matches line) eqn:Hm; [|reflexivity].
    apply matches_grammar in Hm. contradiction.
Qed.

Lemma format_ezproxy_invalid_verbatim_witness :
  In [("log", Str line_junk)] [raw line_junk] <->
  exists line, In line [line_ok; line_junk] /\ Regex.search regex_log line = None
               /\ [("log", Str line_junk)] = [("log", Str line)].
Proof.
  apply (format_ezproxy_invalid_verbatim [line_ok; line_junk]
           [finish (extract_log line_ok)] [raw line_junk]).
  vm_compute. reflexivity.
Defined.

End ParserLaws.

(** ** The engine and the ledger, file by file *)

Module EngineLaws.
Import Parser Samples ParserFacts EngineFacts.

(** *** One file at a time *)

Lemma not_the_other (file_path other : string) (r : row) :
  other <> file_path -> file_path_is file_path r = true -> file_path_is other r = false.
Proof.
  intros Hne H. unfold file_path_is in *. apply bool_decide_eq_true_1 in H.
  apply bool_decide_eq_false_2. rewrite H. congruence.
Qed.

Lemma to_sql_keeps_others (file_path other table : string) (df : frame) (d : db)
      (t : string) :
  other <> file_path ->
  Forall (fun r => file_path_is file_path r = true) df ->
  rows_of other (to_sql table df d t) = rows_of other (d t).
Proof.
  intros Hne Hdf. unfold to_sql. destruct (String.eqb t table); [|reflexivity].
  unfold rows_of. rewrite List.filter_app, (filter_nil _ df), app_nil_r; [reflexivity|].
  intros r Hr. rewrite Forall_forall in Hdf.
  apply (not_the_other file_path); [exact Hne|]. apply Hdf, list_elem_of_In, Hr.
Qed.

Lemma delete_keeps_others (file_path other table : string) (cond : row -> bool)
      (d : db) (t : string) :
  other <> file_path ->
  (forall r, cond r = true -> file_path_is file_path r = true) ->
  rows_of other (delete_where table cond d t) = rows_of other (d t).
Proof.
  intros Hne Hcond. unfold delete_where. destruct (String.eqb t table); [|reflexivity].
  unfold rows_of. induction (d t) as [|r l IH]; [reflexivity|]. simpl.
  destruct (cond r) eqn:Hc; simpl.
  - rewrite (not_the_other file_path other r Hne (Hcond r Hc)). exact IH.
  - destruct (file_path_is other r); [f_equal|]; exact IH.
Qed.

(** However an attempt on one file ends, the rows of any other file stay
    in every table as they were. *)
Lemma process_log_keeps_others (E : env) (chunker : list read_event)
      (file_path log_type : string) (is_production : bool) (format_log : formatter)
      (w : world) (other t : string) :
  errs_only E ->
  other <> file_path ->
  rows_of other (sink (process_log E chunker file_path log_type is_production
                         format_log w).2 t)
  = rows_of other (sink w t).
Proof.
  intros Herr Hne.
  apply (process_log_invariant E file_path log_type is_production
           (fun w' => rows_of other (sink w' t) = rows_of other (sink w t)) Herr); auto.
  - intros _ w1 df table Hdf H. cbn [sink on_sink].
    rewrite (to_sql_keeps_others file_path) by assumption. exact H.
  - intros w1 t1 _ H. cbn [sink on_sink].
    rewrite (delete_keeps_others file_path) by auto. exact H.
  - intros w1 H. cbn [sink on_sink].
    rewrite (delete_keeps_others file_path); [exact H|exact Hne|].
    intros r Hr. apply andb_prop in Hr as [Hr _]. exact Hr.
Qed.

(** What the two queries of the ledger answer. *)
Lemma files_where_valid_spec (b : bool) (d : db) (p : string) :
  p ∈ files_where_valid b d <->
  exists r, In r (rows_of p (d processing_time)) /\ valid_is b r = true.
Proof.
  unfold files_where_valid. rewrite elem_of_list_to_set, list_elem_of_omap. split.
  - intros (r & Hr & Hp). apply list_elem_of_In, filter_In in Hr as [Hr Hv].
    exists r. split; [|exact Hv]. apply filter_In. split; [exact Hr|].
    unfold file_path_is. apply bool_decide_eq_true_2.
    destruct (get "file_path" r); try discriminate. congruence.
  - intros (r & Hr & Hv). apply filter_In in Hr as [Hr Hp].
    exists r. split; [apply list_elem_of_In, filter_In; auto|].
    unfold file_path_is in Hp. apply bool_decide_eq_true_1 in Hp. rewrite Hp. reflexivity.
Qed.

(** X5.  An attempt on one file does not touch another file, as long as
    the server does not leave other tables than the statements mean:
    whatever the mode and however the attempt ends (also when a Delete
    statement raises), the rows of every other path are in every table
    what they were, and every other path is in the processed files and in
    the invalid files exactly when it was before. *)
Theorem process_log_isolation (E : env) (chunker : list read_event)
        (file_path log_type : string) (is_production : bool) (format_log : formatter)
        (w : world) (other : string) :
  errs_only E ->
  other <> file_path ->
  let w' := (process_log E chunker file_path log_type is_production format_log w).2 in
  (forall t, rows_of other (sink w' t) = rows_of other (sink w t))
  /\ (other ∈ get_processed_files w' <-> other ∈ get_processed_files w)
  /\ (other ∈ get_invalid_files w' <-> other ∈ get_invalid_files w).
Proof.
  intros Herr Hne w'. subst w'.
  split; [intros t; apply process_log_keeps_others; assumption|].
  unfold get_processed_files, get_invalid_files.
  rewrite !files_where_valid_spec.
  rewrite (process_log_keeps_others E chunker file_path log_type is_production
             format_log w other processing_time Herr Hne).
  split; reflexivity.
Qed.

Lemma process_log_isolation_witness :
  let w' := (process_log env_0 bad_file "f.log" "ezproxy" true format_ezproxy world_0).2 in
  (forall t, rows_of "g.log" (sink w' t) = rows_of "g.log" (sink world_0 t))
  /\ ("g.log" ∈ get_processed_files w' <-> "g.log" ∈ get_processed_files world_0)
  /\ ("g.log" ∈ get_invalid_files w' <-> "g.log" ∈ get_invalid_files world_0).
Proof.
  apply (process_log_isolation env_0 bad_file "f.log" "ezproxy" true format_ezproxy
           world_0 "g.log").
  - intros statement d d'. discriminate.
  - discriminate.
Defined.

(** *** When the server carries out the Delete statements *)







(** *** What a run that ends well loads *)

Lemma len_app (a b : frame) : len (a ++ b)%list = len a + len b.
Proof. unfold len. rewrite length_app. lia. Qed.

Lemma len_assign (col : string) (v : cell) (df : frame) : len (assign col v df) = len df.
Proof. unfold len, assign. rewrite length_map. reflexivity. Qed.

Lemma assign_app (col : string) (v : cell) (a b : frame) :
  assign col v (a ++ b)%list = (assign col v a ++ assign col v b)%list.
Proof. apply map_app. Qed.

(** The counters after a loop that no exception ends, in either mode. *)
Lemma chunks_counts (file_path log_type : string) (is_production : bool)
      (format_log : formatter) (t0 : Z) (chunker : list read_event) :
  first_exception format_log chunker = None ->
  forall l w,
    (chunks file_path log_type is_production format_log t0 chunker l w).1
    = (None, Locals (num_of_logs l + len (parsed format_log chunker).1)
                    (num_invalid l + len (parsed format_log chunker).2)).
Proof.
  induction chunker as [|ev chunker IH]; intros Hex l w.
  - destruct l as [n m]. cbn. rewrite !Z.add_0_r. reflexivity.
  - destruct ev as [lines arrives|e]; [|discriminate Hex].
    cbn [first_exception chunks parsed] in Hex |- *.
    destruct (arrives_at AtFormat arrives); [discriminate Hex|].
    destruct (format_log lines) as [[df_logs df_invalid]|e]; [|discriminate Hex].
    destruct (arrives_at AtLogs arrives); [discriminate Hex|].
    destruct (arrives_at AtInvalid arrives); [discriminate Hex|].
    rewrite (IH Hex). cbn [num_of_logs num_invalid fst snd].
    rewrite !len_app, !len_assign. f_equal. f_equal; lia.
Qed.

(** The tables after a loop in production that no exception ends. *)
Lemma chunks_loaded (file_path log_type : string) (format_log : formatter) (t0 : Z)
      (chunker : list read_event) :
  first_exception format_log chunker = None ->
  log_type <> invalid_logs ->
  forall l w t,
    sink (chunks file_path log_type true format_log t0 chunker l w).2 t
    = if String.eqb t log_type
      then (sink w t ++ tag_logs file_path t0 (parsed format_log chunker).1)%list
      else if String.eqb t invalid_logs
           then (sink w t
                 ++ tag_invalid file_path log_type t0 (parsed format_log chunker).2)%list
           else sink w t.
Proof.
  intros Hex Hlt. induction chunker as [|ev chunker IH]; intros l w t.
  - cbn. rewrite !app_nil_r. destruct (String.eqb t log_type), (String.eqb t invalid_logs);
      reflexivity.
  - destruct ev as [lines arrives|e]; [|discriminate Hex].
    cbn [first_exception chunks parsed] in Hex |- *.
    destruct (arrives_at AtFormat arrives); [discriminate Hex|].
    destruct (format_log lines) as [[df_logs df_invalid]|e]; [|discriminate Hex].
    destruct (arrives_at AtLogs arrives); [discriminate Hex|].
    destruct (arrives_at AtInvalid arrives); [discriminate Hex|].
    rewrite (IH Hex). cbn [sink on_sink fst snd]. unfold to_sql, tag_logs, tag_invalid.
    rewrite !assign_app.
    destruct (String.eqb_spec t log_type) as [->|Hl].
    + destruct (String.eqb_spec log_type invalid_logs) as [Hi|_]; [contradiction|].
      rewrite app_assoc. reflexivity.
    + destruct (String.eqb_spec t invalid_logs) as [->|Hi]; [|reflexivity].
      rewrite app_assoc. reflexivity.
Qed.

(** X7.  What a production run that ends well loads, when the purge of the
    failed runs is carried out: the table of the log type gains the valid
    rows of all the chunks, in order, each tagged with the file and the
    start time; [invalid_logs] gains the invalid rows, tagged with file,
    log type and start time; [processing_time] gains, after the purge, one
    run row whose two counters are the numbers of rows that went to the two
    tables; no other table changes. *)
Theorem process_log_load (E : env) (chunker : list read_event)
        (file_path log_type : string) (format_log : formatter) (w : world) :
  first_exception format_log chunker = None ->
  purges E file_path ->
  log_type <> invalid_logs -> log_type <> processing_time ->
  let t0 := now E (ticks w) in
  let df := parsed format_log chunker in
  let w' := (process_log E chunker file_path log_type true format_log w).2 in
  sink w' log_type = (sink w log_type ++ tag_logs file_path t0 df.1)%list
  /\ sink w' invalid_logs
     = (sink w invalid_logs ++ tag_invalid file_path log_type t0 df.2)%list
  /\ sink w' processing_time
     = (sink (purged E file_path w) processing_time
        ++ [processing_record file_path log_type t0 (now E (S (ticks w))) true
              (Locals (len (tag_logs file_path t0 df.1))
                      (len (tag_invalid file_path log_type t0 df.2))) NaN])%list
  /\ (forall t, t <> log_type -> t <> invalid_logs -> t <> processing_time ->
                sink w' t = sink w t).
Proof.
  intros Hex Hpurge Hi Hp t0 df w'. subst w'. unfold process_log. fold t0.
  set (w0 := print (Started file_path t0) (tick w)).
  pose proof (chunks_counts file_path log_type true format_log t0 chunker Hex
                (Locals 0 0) w0) as Hc.
  pose proof (chunks_loaded file_path log_type format_log t0 chunker Hex Hi
                (Locals 0 0) w0) as Hs.
  pose proof (chunks_ticks file_path log_type true format_log t0 chunker
                (Locals 0 0) w0) as Ht.
  destruct (chunks _ _ _ _ _ _ _ _) as [[o l] wl].
  cbn [fst snd num_of_logs num_invalid] in Hc, Hs, Ht. injection Hc as -> ->.
  rewrite (cleanup_invalid_carried_out E file_path wl Hpurge).
  cbn [snd]. fold df.
  assert (Hall : forall t,
             sink (record_run E file_path log_type true t0 true
                     (Locals (0 + len df.1) (0 + len df.2)) NaN
                     (purged E file_path wl)) t
             = if String.eqb t processing_time
               then (sink (purged E file_path w) t
                     ++ [processing_record file_path log_type t0 (now E (S (ticks w))) true
                           (Locals (len (tag_logs file_path t0 df.1))
                                   (len (tag_invalid file_path log_type t0 df.2))) NaN])%list
               else if String.eqb t log_type
                    then (sink w t ++ tag_logs file_path t0 df.1)%list
                    else if String.eqb t invalid_logs
                         then (sink w t ++ tag_invalid file_path log_type t0 df.2)%list
                         else sink w t).
  { intros t. rewrite sink_record_run. cbn [andb].
    rewrite ticks_purged, Ht, !sink_purged, Hs.
    unfold tag_logs, tag_invalid. rewrite !len_assign, !Z.add_0_l.
    destruct (String.eqb_spec t processing_time) as [->|Hpt].
    - destruct (String.eqb_spec processing_time log_type) as [Heq|_];
        [symmetry in Heq; contradiction|].
      change (String.eqb processing_time invalid_logs) with false. cbv iota.
      reflexivity.
    - rewrite andb_false_r. reflexivity. }
  repeat split.
  - rewrite Hall. destruct (String.eqb_spec log_type processing_time); [contradiction|].
    rewrite String.eqb_refl. reflexivity.
  - rewrite Hall. change (String.eqb invalid_logs processing_time) with false. cbv iota.
    destruct (String.eqb_spec invalid_logs log_type) as [Heq|_];
      [symmetry in Heq; contradiction|].
    rewrite String.eqb_refl. reflexivity.
  - rewrite Hall, String.eqb_refl. reflexivity.
  - intros t H1 H2 H3. rewrite Hall.
    destruct (String.eqb_spec t processing_time); [contradiction|].
    destruct (String.eqb_spec t log_type); [contradiction|].
    destruct (String.eqb_spec t invalid_logs); [contradiction|]. reflexivity.
Qed.

Lemma process_log_load_witness :
  let t0 := now env_0 (ticks world_0) in
  let df := parsed format_ezproxy good_file in
  let w' := (process_log env_0 good_file "f.log" "ezproxy" true format_ezproxy world_0).2 in
  sink w' "ezproxy" = (sink world_0 "ezproxy" ++ tag_logs "f.log" t0 df.1)%list
  /\ sink w' invalid_logs
     = (sink world_0 invalid_logs ++ tag_invalid "f.log" "ezproxy" t0 df.2)%list
  /\ sink w' processing_time
     = (sink (purged env_0 "f.log" world_0) processing_time
        ++ [processing_record "f.log" "ezproxy" t0 (now env_0 (S (ticks world_0))) true
              (Locals (len (tag_logs "f.log" t0 df.1))
                      (len (tag_invalid "f.log" "ezproxy" t0 df.2))) NaN])%list
  /\ (forall t, t <> "ezproxy" -> t <> invalid_logs -> t <> processing_time ->
                sink w' t = sink world_0 t).
Proof.
  apply (process_log_load env_0 good_file "f.log" "ezproxy" format_ezproxy world_0).
  - vm_compute. reflexivity.
  - intros _. repeat split.
  - discriminate.
  - discriminate.
Defined.

Lemma parsed_ezproxy_counts (chunker : list read_event) :
  first_exception format_ezproxy chunker = None ->
  len (parsed format_ezproxy chunker).1 + len (parsed format_ezproxy chunker).2
  = lines_read chunker.
Proof.
  induction chunker as [|ev chunker IH]; intros Hex; [reflexivity|].
  destruct ev as [lines arrives|e]; [|discriminate Hex].
  cbn [first_exception parsed lines_read] in Hex |- *.
  destruct (arrives_at AtFormat arrives); [discriminate Hex|].
  destruct (format_ezproxy lines) as [[df_logs df_invalid]|e] eqn:Hfmt; [|discriminate Hex].
  destruct (arrives_at AtLogs arrives); [discriminate Hex|].
  destruct (arrives_at AtInvalid arrives); [discriminate Hex|].
  apply format_ezproxy_counts in Hfmt. specialize (IH Hex).
  cbn [fst snd]. rewrite !len_app. unfold len in *. lia.
Qed.

(** X8.  No line is lost in the accounting: when a production run with
    [format_ezproxy] ends well and the purge is carried out, the run row it
    appends to [processing_time] is the last row of the table, it is valid
    and without an error, and its two counters add up to the number of
    lines that were read from the file. *)
Theorem process_log_counts_every_line (E : env) (chunker : list read_event)
        (file_path log_type : string) (w : world) :
  first_exception format_ezproxy chunker = None ->
  purges E file_path ->
  exists before t1 n m,
    sink (process_log E chunker file_path log_type true format_ezproxy w).2 processing_time
    = (before ++ [processing_record file_path log_type (now E (ticks w)) t1 true
                    (Locals n m) NaN])%list
    /\ n + m = lines_read chunker.
Proof.
  intros Hex Hpurge. unfold process_log.
  pose proof (chunks_counts file_path log_type true format_ezproxy (now E (ticks w))
                chunker Hex (Locals 0 0)
                (print (Started file_path (now E (ticks w))) (tick w))) as Hc.
  destruct (chunks _ _ _ _ _ _ _ _) as [[o l] wl].
  cbn [fst snd num_of_logs num_invalid] in Hc. injection Hc as -> ->.
  rewrite (cleanup_invalid_carried_out E file_path wl Hpurge). cbn [snd].
  eexists _, _, _, _. split.
  - rewrite sink_record_run. cbn [andb]. rewrite String.eqb_refl. reflexivity.
  - rewrite !Z.add_0_l. apply parsed_ezproxy_counts, Hex.
Qed.

Lemma process_log_counts_every_line_witness :
  exists before t1 n m,
    sink (process_log env_0 good_file "f.log" "ezproxy" true format_ezproxy world_0).2
         processing_time
    = (before ++ [processing_record "f.log" "ezproxy" (now env_0 (ticks world_0)) t1 true
                    (Locals n m) NaN])%list
    /\ n + m = lines_read good_file.
Proof.
  apply (process_log_counts_every_line env_0 good_file "f.log" "ezproxy" world_0).
  - vm_compute. reflexivity.
  - intros _. repeat split.
Defined.

(** *** The attempt and the two queries of the ledger *)

Lemma valid_true_not_false (r : row) : valid_is true r = true -> valid_is false r = false.
Proof.
  unfold valid_is. intros H. apply bool_decide_eq_true_1 in H.
  apply bool_decide_eq_false_2. rewrite H. discriminate.
Qed.

Lemma valid_of_record (file_path log_type : string) (t0 t1 : Z) (valid b : bool)
      (l : locals) (error : cell) :
  valid_is b (processing_record file_path log_type t0 t1 valid l error)
  = bool_decide (valid = b).
Proof.
  unfold valid_is, processing_record. destruct valid, b; reflexivity.
Qed.

(** A run row at the end of [processing_time] puts its file in the set of
    its outcome. *)
Lemma recorded (b : bool) (d : db) (before : list row) (file_path log_type : string)
      (t0 t1 : Z) (l : locals) (error : cell) :
  d processing_time
  = (before ++ [processing_record file_path log_type t0 t1 b l error])%list ->
  file_path ∈ files_where_valid b d.
Proof.
  intros Hd. apply files_where_valid_spec.
  exists (processing_record file_path log_type t0 t1 b l error). split.
  - apply filter_In. split; [|apply file_path_of_record].
    rewrite Hd. apply in_or_app. right. left. reflexivity.
  - rewrite valid_of_record. apply bool_decide_eq_true_2. reflexivity.
Qed.

(** X9.  A production run that ends well, with the purge carried out,
    marks the file as processed; and when the file was in the set
    [invalid_files] that the run loaded, it leaves the invalid files: the
    next run of the driver skips it. *)
Theorem process_log_marks_processed (E : env) (chunker : list read_event)
        (file_path log_type : string) (format_log : formatter) (w : world) :
  first_exception format_log chunker = None ->
  purges E file_path ->
  let w' := (process_log E chunker file_path log_type true format_log w).2 in
  file_path ∈ get_processed_files w'
  /\ (file_path ∈ invalid_files E -> file_path ∉ get_invalid_files w').
Proof.
  intros Hex Hpurge w'. subst w'. unfold process_log.
  pose proof (chunks_exception file_path log_type true format_log (now E (ticks w))
                chunker (Locals 0 0)
                (print (Started file_path (now E (ticks w))) (tick w))) as Ho.
  destruct (chunks _ _ _ _ _ _ _ _) as [[o l] wl]. cbn [fst snd] in Ho.
  rewrite Hex in Ho. subst o.
  rewrite (cleanup_invalid_carried_out E file_path wl Hpurge). cbn [snd]. split.
  - unfold get_processed_files. eapply recorded.
    rewrite sink_record_run. cbn [andb]. rewrite String.eqb_refl. reflexivity.
  - intros Hinv. unfold get_invalid_files. rewrite files_where_valid_spec.
    intros (r & Hr & Hv). apply filter_In in Hr as [Hr Hp].
    rewrite sink_record_run in Hr. cbn [andb] in Hr. rewrite String.eqb_refl in Hr.
    apply in_app_or in Hr as [Hr|[<-|[]]].
    + rewrite sink_purged in Hr.
      rewrite (bool_decide_eq_true_2 _ Hinv), String.eqb_refl in Hr. cbn [andb] in Hr.
      apply filter_In in Hr as [_ Hr]. rewrite Hp, Hv in Hr. discriminate Hr.
    + rewrite valid_of_record in Hv. discriminate Hv.
Qed.

Lemma process_log_marks_processed_witness :
  let w' := (process_log env_0 good_file "f.log" "ezproxy" true format_ezproxy world_0).2 in
  "f.log" ∈ get_processed_files w'
  /\ ("f.log" ∈ invalid_files env_0 -> "f.log" ∉ get_invalid_files w').
Proof.
  apply (process_log_marks_processed env_0 good_file "f.log" "ezproxy" format_ezproxy
           world_0).
  - vm_compute. reflexivity.
  - intros _. repeat split.
Defined.

(** X10.  A production run that an error other than a cancellation ends
    marks the file as invalid, whatever the ledger held, when the two
    Delete statements of the handler are carried out: the file is in
    [get_invalid_files] afterwards. *)
Theorem process_log_marks_invalid (E : env) (chunker : list read_event)
        (file_path log_type : string) (format_log : formatter) (w : world)
        (cls msg : string) :
  first_exception format_log chunker = Some (Exc cls msg) ->
  rolls_back E file_path log_type ->
  file_path ∈ get_invalid_files
                (process_log E chunker file_path log_type true format_log w).2.
Proof.
  intros Hex Hback. unfold process_log.
  pose proof (chunks_exception file_path log_type true format_log (now E (ticks w))
                chunker (Locals 0 0)
                (print (Started file_path (now E (ticks w))) (tick w))) as Ho.
  destruct (chunks _ _ _ _ _ _ _ _) as [[o l] wl]. cbn [fst snd] in Ho.
  rewrite Hex in Ho. subst o. cbn [handle].
  rewrite (delete_logs_of_carried_out E file_path log_type _ Hback). cbn [snd].
  unfold get_invalid_files. eapply recorded.
  rewrite sink_record_run. cbn [andb]. rewrite String.eqb_refl. reflexivity.
Qed.

Lemma process_log_marks_invalid_witness :
  "g.log" ∈ get_invalid_files
              (process_log env_0 bad_file "g.log" "ezproxy" true format_ezproxy world_0).2.
Proof.
  apply (process_log_marks_invalid env_0 bad_file "g.log" "ezproxy" format_ezproxy world_0
           "ValueError"
           "time data '01/Xyz/2020:10:00:00' does not match format '%d/%b/%Y:%H:%M:%S' (match)").
  - vm_compute. reflexivity.
  - repeat split.
Defined.

Lemma filter_valid_after_purge (file_path : string) (l : list row) :
  List.filter (valid_is true)
    (List.filter (fun r => negb (file_path_is file_path r && valid_is false r)) l)
  = List.filter (valid_is true) l.
Proof.
  induction l as [|r l IH]; [reflexivity|]. cbn [List.filter].
  destruct (valid_is true r) eqn:Hv.
  - rewrite (valid_true_not_false r Hv), andb_false_r. cbn [negb List.filter].
    rewrite Hv, IH. reflexivity.
  - destruct (negb _); cbn [List.filter]; rewrite ?Hv; exact IH.
Qed.

(** Neither handler touches the valid runs of the ledger. *)
Lemma handle_keeps_valid_runs (E : env) (file_path log_type : string)
      (is_production : bool) (t0 : Z) (e : exn) (l : locals) (w : world) :
  errs_only E ->
  log_type <> processing_time ->
  List.filter (valid_is true)
    (sink (handle E file_path log_type is_production t0 e l w).2 processing_time)
  = List.filter (valid_is true) (sink w processing_time).
Proof.
  intros Herr Hlt.
  assert (Hspare : forall w0 w1 t, t = log_type \/ t = invalid_logs ->
             sink w1 processing_time = sink w0 processing_time ->
             sink (on_sink (delete_where t (file_path_is file_path)) w1) processing_time
             = sink w0 processing_time).
  { intros w0 w1 t Ht H. cbn [sink on_sink]. unfold delete_where.
    destruct (String.eqb_spec processing_time t) as [Heq|_]; [|exact H].
    destruct Ht as [->| ->]; [contradiction Hlt; congruence|discriminate Heq]. }
  destruct e as [|cls msg]; cbn [handle].
  - pose proof (delete_logs_of_invariant
                  (fun w' => sink w' processing_time = sink w processing_time)
                  E file_path log_type w Herr (Hspare w) eq_refl) as H.
    destruct (delete_logs_of E file_path log_type w) as [[[]|e'] w1]; cbn [snd] in *;
      rewrite H; reflexivity.
  - set (w0 := print (Text (str_of (Exc cls msg))) w).
    pose proof (delete_logs_of_invariant
                  (fun w' => sink w' processing_time = sink w processing_time)
                  E file_path log_type w0 Herr (Hspare w) eq_refl) as H.
    destruct (delete_logs_of E file_path log_type w0) as [[[]|e'] w1]; cbn [snd] in *.
    + rewrite sink_record_run, H. destruct (is_production && _); [|reflexivity].
      rewrite List.filter_app. cbn [List.filter]. rewrite valid_of_record.
      cbn. apply app_nil_r.
    + rewrite H. reflexivity.
Qed.

(** X11.  Only a production run that ends well changes the set of
    processed files: after a dry run, and after a run whose loop over the
    chunks an exception ends, [get_processed_files] answers what it
    answered before (for a log type whose table is not [processing_time]
    itself, and a server that does not leave other tables than the
    statements mean). *)
Theorem process_log_processed_unchanged (E : env) (chunker : list read_event)
        (file_path log_type : string) (is_production : bool) (format_log : formatter)
        (w : world) :
  errs_only E ->
  log_type <> processing_time ->
  is_production = false \/ first_exception format_log chunker <> None ->
  get_processed_files (process_log E chunker file_path log_type is_production
                         format_log w).2
  = get_processed_files w.
Proof.
  intros Herr Hp Hcase. unfold get_processed_files, files_where_valid. do 2 f_equal.
  unfold process_log.
  pose proof (chunks_exception file_path log_type is_production format_log
                (now E (ticks w)) chunker (Locals 0 0)
                (print (Started file_path (now E (ticks w))) (tick w))) as Ho.
  pose proof (chunks_other_tables file_path log_type is_production format_log
                (now E (ticks w)) chunker (Locals 0 0)
                (print (Started file_path (now E (ticks w))) (tick w))
                processing_time) as Hs.
  destruct (chunks _ _ _ _ _ _ _ _) as [[o l] wl]. cbn [fst snd] in Ho, Hs.
  assert (Hpt : sink wl processing_time = sink w processing_time).
  { apply Hs; [congruence|discriminate]. }
  destruct o as [e|].
  - rewrite handle_keeps_valid_runs, Hpt by assumption. reflexivity.
  - destruct Hcase as [->|Hne]; [|rewrite <- Ho in Hne; contradiction].
    pose proof (cleanup_invalid_invariant
                  (fun w' => List.filter (valid_is true) (sink w' processing_time)
                             = List.filter (valid_is true) (sink w processing_time))
                  E file_path wl Herr) as H.
    destruct (cleanup_invalid E file_path wl) as [[[]|e] w2]; cbn [snd] in *.
    + rewrite sink_record_run. cbn [andb]. apply H; [|rewrite Hpt; reflexivity].
      intros w1 H1. cbn [sink on_sink]. unfold delete_where, aimed_at.
      rewrite String.eqb_refl, filter_valid_after_purge. exact H1.
    + rewrite handle_keeps_valid_runs by assumption.
      apply H; [|rewrite Hpt; reflexivity].
      intros w1 H1. cbn [sink on_sink]. unfold delete_where, aimed_at.
      rewrite String.eqb_refl, filter_valid_after_purge. exact H1.
Qed.

Lemma process_log_processed_unchanged_witness :
  get_processed_files (process_log env_0 good_file "f.log" "ezproxy" false
                         format_ezproxy world_0).2
  = get_processed_files world_0.
Proof.
  apply (process_log_processed_unchanged env_0 good_file "f.log" "ezproxy" false
           format_ezproxy world_0).
  - intros statement d d'. discriminate.
  - discriminate.
  - left. reflexivity.
Defined.

(** *** What a dry run shows *)




End EngineLaws.

(** ** The walk and the driver, file by file *)

Module DriverLaws.
Import Driver Samples DriverFacts.

(** *** [list_files] *)

Lemma node_nested_ind (P : node -> Prop) :
  (forall name mtime, P (File name mtime)) ->
  (forall name mtime entries, Forall P entries -> P (Dir name mtime entries)) ->
  forall n, P n.
Proof.
  intros HF HD. fix IH 1. intros [name mtime|name mtime entries].
  - apply HF.
  - apply HD. induction entries as [|n entries IHe]; constructor; [apply IH|exact IHe].
Qed.

Lemma walk_length (root : string) (entries : list node) :
  Forall (fun n => forall root', length (walk_node root' n) = below n) entries ->
  length (walk root entries) = count_files entries.
Proof.
  intros H. unfold walk, count_files. rewrite length_app.
  induction H as [|n entries Hn _ IH]; [reflexivity|].
  cbn [files_in flat_map map concat list_sum]. rewrite !length_app, (Hn root).
  fold (files_in root entries).
  destruct n as [name mtime|name mtime sub]; cbn [length below count_node app];
    unfold count_files, list_sum in *; cbn [fold_right]; lia.
Qed.

Lemma walk_node_length (n : node) :
  forall root, length (walk_node root n) = below n.
Proof.
  induction n as [name mtime|name mtime entries IH] using node_nested_ind; intros root.
  - reflexivity.
  - cbn [walk_node below]. apply (walk_length (join root name) entries IH).
Qed.

Lemma starts_with_refl_app (s t : string) : starts_with s (s ++ t) = true.
Proof.
  induction s as [|c s IH]; [reflexivity|].
  change (Ascii.eqb c c && starts_with s (s ++ t) = true).
  rewrite Ascii.eqb_refl. exact IH.
Qed.

Lemma starts_with_trans (a b c : string) :
  starts_with a b = true -> starts_with b c = true -> starts_with a c = true.
Proof.
  revert b c. induction a as [|x a IH]; intros b c Hab Hbc; [reflexivity|].
  destruct b as [|y b]; [discriminate|]. destruct c as [|z c]; [discriminate|].
  cbn [starts_with] in *.
  apply andb_prop in Hab as [Hxy Hab]. apply andb_prop in Hbc as [Hyz Hbc].
  apply Ascii.eqb_eq in Hxy, Hyz. subst. rewrite Ascii.eqb_refl. cbn [andb].
  exact (IH b c Hab Hbc).
Qed.

Lemma last_char_none (s : string) : last_char s = None -> s = EmptyString.
Proof.
  induction s as [|c s IH]; [reflexivity|]. cbn [last_char].
  destruct s as [|c' s']; [discriminate|]. intros H. specialize (IH H). discriminate IH.
Qed.

Lemma join_under (a b : string) : starts_with a (join a b) = true.
Proof.
  unfold join. destruct (last_char a) eqn:Hlast.
  - destruct (_ || _); apply starts_with_refl_app.
  - rewrite (last_char_none a Hlast). reflexivity.
Qed.

Lemma files_in_under (root : string) (entries : list node) :
  Forall (fun f : string * Z => starts_with root f.1 = true) (files_in root entries).
Proof.
  unfold files_in. induction entries as [|n entries IH]; [constructor|].
  cbn [flat_map]. destruct n as [name mtime|name mtime sub]; [|exact IH].
  constructor; [apply join_under|exact IH].
Qed.

Lemma walk_under (root : string) (entries : list node) :
  Forall (fun n => forall root',
            Forall (fun f : string * Z => starts_with root' f.1 = true)
                   (walk_node root' n)) entries ->
  Forall (fun f : string * Z => starts_with root f.1 = true) (walk root entries).
Proof.
  intros H. unfold walk. apply Forall_app. split; [apply files_in_under|].
  induction H as [|n entries Hn _ IH]; [constructor|].
  cbn [map concat]. apply Forall_app. split; [apply Hn|exact IH].
Qed.

Lemma walk_node_under (n : node) :
  forall root,
    Forall (fun f : string * Z => starts_with root f.1 = true) (walk_node root n).
Proof.
  induction n as [name mtime|name mtime entries IH] using node_nested_ind; intros root.
  - constructor.
  - cbn [walk_node].
    pose proof (walk_under (join root name) entries IH) as H. unfold walk in H.
    eapply Forall_impl; [exact H|].
    intros f Hf. exact (starts_with_trans _ _ _ (join_under root name) Hf).
Qed.

(** X14.  [list_files] lists the files of a directory tree and nothing
    else: it returns as many paths as there are files under the root, at
    any depth (sub-directories are descended into and are not listed
    themselves), every path begins with the root, and the world is not
    changed; for a root that does not exist it returns the empty list. *)
Theorem list_files_lists_every_file (root_directory : string) (w : world) :
  exists file_paths,
    list_files root_directory w = (Ok file_paths, w)
    /\ Forall (fun p => starts_with root_directory p = true) file_paths
    /\ length file_paths
       = match disk w root_directory with
         | Some entries => count_files entries
         | None => 0%nat
         end.
Proof.
  unfold list_files, ask. eexists. split; [reflexivity|].
  destruct (disk w root_directory) as [entries|]; [|split; [constructor|reflexivity]].
  split.
  - apply Forall_map.
    apply walk_under, Forall_forall. intros n _. apply walk_node_under.
  - rewrite length_map.
    apply walk_length, Forall_forall. intros n _. apply walk_node_length.
Qed.

(** *** The loop of the driver *)

Lemma printing_nil (w : world) : printing [] w = w.
Proof. destruct w. unfold printing. cbn. rewrite app_nil_r. reflexivity. Qed.

Lemma printing_cons (p : printed) (ps : list printed) (w : world) :
  printing ps (print p w) = printing (p :: ps) w.
Proof. unfold printing, print. cbn. rewrite <- app_assoc. reflexivity. Qed.

Lemma printing_app (ps qs : list printed) (w : world) :
  printing qs (printing ps w) = printing (ps ++ qs) w.
Proof. unfold printing. cbn. rewrite <- app_assoc. reflexivity. Qed.

Lemma skipped_app (processed_files : gset string) (a b : list string) :
  skipped processed_files (a ++ b)
  = if all_in processed_files a
    then (a ++ skipped processed_files b)%list
    else skipped processed_files a.
Proof.
  induction a as [|f a IH]; [reflexivity|].
  change ((f :: a) ++ b)%list with (f :: (a ++ b))%list.
  cbn [skipped all_in forallb]. destruct (bool_decide (f ∈ processed_files)); [|reflexivity].
  cbn [andb]. fold (all_in processed_files a). rewrite IH.
  destruct (all_in processed_files a); reflexivity.
Qed.

Lemma skipped_all (processed_files : gset string) (files : list string) :
  all_in processed_files files = true -> skipped processed_files files = files.
Proof.
  induction files as [|f files IH]; [reflexivity|]. cbn [all_in forallb skipped].
  destruct (bool_decide (f ∈ processed_files)); [|discriminate].
  intros H. rewrite (IH H). reflexivity.
Qed.

Lemma all_in_app (processed_files : gset string) (a b : list string) :
  all_in processed_files (a ++ b) = all_in processed_files a && all_in processed_files b.
Proof. apply forallb_app. Qed.

(** The loop over the files of one directory. *)
Lemma visits_outcome (processed_files invalid_files : gset string) (now : nat -> Z)
      (server : string -> db -> option (result db))
      (read_csv : string -> list read_event) (log_type : string) (format_log : formatter)
      (files : list string) (w : world) :
  for_each files
    (visit processed_files invalid_files now server read_csv log_type format_log) w
  = (if all_in processed_files files then Ok tt else Raise missing_argument,
     printing (map line_of (skipped processed_files files)) w).
Proof.
  revert w. induction files as [|f files IH]; intros w.
  - cbn. rewrite printing_nil. reflexivity.
  - cbn [for_each]. rewrite and_then_run. cbn [all_in forallb skipped].
    destruct (decide (f ∈ processed_files)) as [Hin|Hout].
    + rewrite visit_processed by exact Hin. rewrite IH.
      rewrite (bool_decide_eq_true_2 _ Hin). cbn [andb map].
      rewrite printing_cons. reflexivity.
    + rewrite visit_new by exact Hout.
      rewrite (bool_decide_eq_false_2 _ Hout). cbn [andb map].
      rewrite printing_nil. reflexivity.
Qed.

Lemma enumerated_printing (config : list (string * string)) (ps : list printed)
      (w : world) :
  enumerated config (printing ps w) = enumerated config w.
Proof. reflexivity. Qed.

(** The loop over the configuration, for the set that line 352 loaded. *)
Lemma configured_outcome (processed_files invalid_files : gset string) (now : nat -> Z)
      (server : string -> db -> option (result db))
      (read_csv : string -> list read_event) (config : list (string * string))
      (w : world) :
  for_each config (fun log_config =>
    let* files := list_files log_config.1 in
    for_each files
      (visit processed_files invalid_files now server read_csv log_config.2
             Parser.format_ezproxy)) w
  = (if all_in processed_files (enumerated config w) then Ok tt else Raise missing_argument,
     printing (map line_of (skipped processed_files (enumerated config w))) w).
Proof.
  revert w. induction config as [|[open_path log_type] config IH]; intros w.
  - cbn. rewrite printing_nil. reflexivity.
  - cbn [for_each]. rewrite !and_then_run. unfold list_files at 1, ask.
    cbv beta iota. cbn [fst snd]. rewrite visits_outcome.
    cbn [enumerated flat_map fst].
    set (files := match disk w open_path with
                  | Some entries => map fst (walk open_path entries)
                  | None => []
                  end).
    fold (enumerated config w).
    rewrite all_in_app, skipped_app.
    destruct (all_in processed_files files) eqn:Hall; cbn [andb].
    + rewrite IH, enumerated_printing, printing_app, map_app.
      rewrite (skipped_all processed_files files Hall). reflexivity.
    + reflexivity.
Qed.

(** X15.  What the run driver does, for every configuration, disk and
    ledger: it prints one line for each file that it meets before the
    first file that is not processed, in the order in which [list_files]
    gives the files of the configured directories; it returns when every
    file is processed, and otherwise it stops at the first that is not with
    the [TypeError] of the call of line 384; it changes no table, reads no
    clock and starts no command. *)
Theorem run_driver_outcome (now : nat -> Z) (server : string -> db -> option (result db))
        (read_csv : string -> list read_event) (config : list (string * string))
        (w : world) :
  let files := enumerated config w in
  let processed_files := get_processed_files w in
  run_driver now server read_csv config w
  = (if forallb (fun f => bool_decide (f ∈ processed_files)) files
     then Ok tt
     else Raise (TypeError
                   "process_log() missing 1 required positional argument: 'format_log'"),
     World (sink w)
           (stdout w ++ map (fun f => Text ("Existing log:" ++ f))
                            (skipped processed_files files))%list
           (ticks w) (disk w) (spawned w)).
Proof.
  cbv zeta. unfold run_driver. rewrite !and_then_run. unfold ask at 1 2.
  cbv beta iota. apply configured_outcome.
Qed.

End DriverLaws.
